(** * Air-Aware: the live-data path of the telemetry dashboard

    A shallow embedding of the two programs of the repository that carry
    sensor readings from the device to the screen:

    - the React client ([App], the dashboard): the state it keeps about the
      latest reading, [updateLocationData] which merges a pushed or polled
      reading into that state, and the classifier [calculateAQI];
    - the Express backend ([server.js]): the Mongoose schema
      [sensorDataSchema], the ingest handler [POST /api/arduino] and the
      query handlers [GET /api/latest], [GET /api/data] and
      [GET /api/data/range].

    JavaScript values are modelled as far as the code inspects them.  A
    number is [NaN], an infinity or a rational, and every finite double is a
    rational.  Arithmetic gives the double nearest to the exact result
    ([double]).  A decimal literal of the source that is compared with, such
    as [35.4], stands for the double nearest to it, and the model compares
    with that double. *)

From Stdlib Require Import QArith Qabs Qround Qpower ZArith Lia Lqa Ascii String.
From stdpp Require Import base option list sorting strings gmap.

Set Warnings "-register-all".
#[local] Open Scope Z_scope.

(** ** JavaScript values *)

Inductive number :=
| NaN
| PInf
| NInf
| Fin (q : Q).

(** What [JSON.parse] produces, and [undefined] for what is not there. *)
Inductive JsVal :=
| JUndefined
| JNull
| JBool (b : bool)
| JNum (n : number)
| JStr (s : string)
| JArr (l : list JsVal)
| JObj (o : gmap string JsVal).

Declare Scope js_scope.
Delimit Scope js_scope with js.
Bind Scope js_scope with JsVal.

Definition num (z : Z) : number := Fin (inject_Z z).
Definition dec (digits : Z) (scale : positive) : number := Fin (digits # scale).

(** The relational operator [x <= y] on numbers: false as soon as one side is
    [NaN]. *)
Definition num_le (x y : number) : bool :=
  match x, y with
  | NaN, _ | _, NaN => false
  | NInf, _ => true
  | _, PInf => true
  | PInf, _ => false
  | _, NInf => false
  | Fin a, Fin b => Qle_bool a b
  end.

(** ** Double arithmetic

    The result of an arithmetic operation is the double nearest to the exact
    result, the one with the even significand of two that are equally near,
    and an infinity beyond the range of the doubles (IEEE 754 binary64,
    round to nearest, ties to even).  The model has no negative zero: it
    differs from zero only as a divisor, and the code never divides by a
    zero. *)

(** For [q > 0], the exponent [e] with [2^e <= q < 2^(e+1)]. *)
Definition exponent (q : Q) : Z :=
  let e := Z.log2 (Qnum q) - Z.log2 (Z.pos (Qden q)) in
  if Qle_bool (2 ^ e) q then e else e - 1.

(** The integer nearest to [q], the even one of two that are equally near. *)
Definition round_half_even (q : Q) : Z :=
  let f := Qfloor q in
  match (q - inject_Z f ?= 1 # 2)%Q with
  | Lt => f
  | Gt => f + 1
  | Eq => if Z.even f then f else f + 1
  end.

(** The double nearest to [q > 0], in lowest terms: a multiple of
    [2^(e - 52)], where [e] is the exponent of [q], or -1022 if that is
    more; [None] is overflow. *)
Definition nearest (q : Q) : option Q :=
  let e := Z.max (exponent q) (-1022) in
  let ulp := (2 ^ (e - 52))%Q in
  let v := (inject_Z (round_half_even (q / ulp)) * ulp)%Q in
  if Qle_bool (2 ^ 1024) v then None else Some (Qred v).

(** The number an operation gives whose exact result is [q]. *)
Definition double (q : Q) : number :=
  match Qnum q with
  | 0 => Fin 0
  | Z.pos _ => match nearest q with Some v => Fin v | None => PInf end
  | Z.neg _ => match nearest (- q) with Some v => Fin (- v) | None => NInf end
  end.

(** The sign of a number that is not [NaN], and the infinity of a sign. *)
Definition sign (x : number) : Z :=
  match x with
  | NaN => 0
  | PInf => 1
  | NInf => -1
  | Fin q => Z.sgn (Qnum q)
  end.

Definition infinity (s : Z) : number :=
  match s with
  | 0 => NaN
  | Z.pos _ => PInf
  | Z.neg _ => NInf
  end.

(** [x + y]. *)
Definition js_add (x y : number) : number :=
  match x, y with
  | Fin a, Fin b => double (a + b)
  | NaN, _ | _, NaN => NaN
  | PInf, NInf | NInf, PInf => NaN
  | PInf, _ | _, PInf => PInf
  | NInf, _ | _, NInf => NInf
  end.

(** [x - y]. *)
Definition js_sub (x y : number) : number :=
  match x, y with
  | Fin a, Fin b => double (a - b)
  | NaN, _ | _, NaN => NaN
  | PInf, PInf | NInf, NInf => NaN
  | PInf, _ | _, NInf => PInf
  | NInf, _ | _, PInf => NInf
  end.

(** [x * y]: an infinity times zero is [NaN]. *)
Definition js_mul (x y : number) : number :=
  match x, y with
  | Fin a, Fin b => double (a * b)
  | NaN, _ | _, NaN => NaN
  | _, _ => infinity (sign x * sign y)
  end.

(** [x / y]. *)
Definition js_div (x y : number) : number :=
  match x, y with
  | NaN, _ | _, NaN => NaN
  | Fin a, Fin b => if Qnum b =? 0 then infinity (sign x) else double (a / b)
  | Fin _, _ => Fin 0
  | _, Fin b => infinity (sign x * (if Qnum b =? 0 then 1 else sign y))
  | _, _ => NaN
  end.

(** [Math.floor(x)] and [Math.ceil(x)]. *)
Definition Math_floor (x : number) : number :=
  match x with
  | Fin q => Fin (inject_Z (Qfloor q))
  | _ => x
  end.

Definition Math_ceil (x : number) : number :=
  match x with
  | Fin q => Fin (inject_Z (Qceiling q))
  | _ => x
  end.

(** ToBoolean. *)
Definition truthy (v : JsVal) : bool :=
  match v with
  | JUndefined | JNull => false
  | JBool b => b
  | JNum NaN => false
  | JNum (Fin q) => negb (Qnum q =? 0)
  | JNum _ => true
  | JStr s => negb (String.eqb s "")
  | JArr _ | JObj _ => true
  end.

Definition is_undefined (v : JsVal) : bool :=
  match v with JUndefined => true | _ => false end.

Definition nullish (v : JsVal) : bool :=
  match v with JUndefined | JNull => true | _ => false end.

(** [a || b]. *)
Definition js_or (a b : JsVal) : JsVal := if truthy a then a else b.

(** [v.k] for the property names the client reads (none of them is defined
    by a built-in prototype, so only an object's own properties answer).
    Reading a property of [null] or [undefined] throws in JavaScript; the
    code never does so, every such read is behind [data &&] or [?.]. *)
Definition prop (v : JsVal) (k : string) : JsVal :=
  match v with
  | JObj o => default JUndefined (o !! k)
  | _ => JUndefined
  end.

(** [v?.k]. *)
Definition opt_prop (v : JsVal) (k : string) : JsVal :=
  if nullish v then JUndefined else prop v k.

Notation "a || b" := (js_or a b) : js_scope.
Notation "v .[ k ]" := (prop v k) (at level 1, left associativity, format "v .[ k ]") : js_scope.
Notation "v ?.[ k ]" := (opt_prop v k) (at level 1, left associativity, format "v ?.[ k ]") : js_scope.

(** A [Date] object is represented by the argument its constructor was
    applied to: its time value is a function of that argument alone, and the
    client only stores and displays it. *)
Inductive JsDate :=
| Date_new (value : JsVal).

(** A time in milliseconds as a JavaScript number. *)
Definition ms (t : Z) : JsVal := JNum (num t).

(** Building object literals. *)
Definition obj (fields : list (string * JsVal)) : JsVal :=
  JObj (list_to_map fields).

(** ** The dashboard client *)

Module Client.

(** The [currentLocation] state of [App]. *)
Record Location := {
  latitude : JsVal;
  longitude : JsVal;
  temperature : JsVal;
  humidity : JsVal;
  voc : JsVal;
  pm25 : JsVal;
  pm10 : JsVal;
  pm1 : JsVal;
  rainfall : JsVal;
  windSpeed : JsVal;
  windDirection : JsVal
}.

(** The state hooks of [App]. *)
Record App := {
  currentLocation : Location;
  isLoading : bool;
  error : option string;
  lastUpdate : option JsDate;
  connectionStatus : string
}.

Definition site_latitude : number := dec 6791164 1000000.
Definition site_longitude : number := dec 79900497 1000000.

(** The initial values given to [useState]. *)
Definition initial : App := {|
  currentLocation := {|
    latitude := JNum site_latitude;
    longitude := JNum site_longitude;
    temperature := JNum (num 0);
    humidity := JNum (num 0);
    voc := JNum (num 0);
    pm25 := JNum (num 0);
    pm10 := JNum (num 0);
    pm1 := JNum (num 0);
    rainfall := JNum (num 0);
    windSpeed := JNum (num 0);
    windDirection := JStr "Unknown"
  |};
  isLoading := true;
  error := None;
  lastUpdate := None;
  connectionStatus := "Disconnected"
|}.

Definition setCurrentLocation (l : Location) (st : App) : App :=
  {| currentLocation := l; isLoading := isLoading st; error := error st;
     lastUpdate := lastUpdate st; connectionStatus := connectionStatus st |}.

Definition setIsLoading (b : bool) (st : App) : App :=
  {| currentLocation := currentLocation st; isLoading := b; error := error st;
     lastUpdate := lastUpdate st; connectionStatus := connectionStatus st |}.

Definition setError (e : option string) (st : App) : App :=
  {| currentLocation := currentLocation st; isLoading := isLoading st; error := e;
     lastUpdate := lastUpdate st; connectionStatus := connectionStatus st |}.

Definition setLastUpdate (d : option JsDate) (st : App) : App :=
  {| currentLocation := currentLocation st; isLoading := isLoading st; error := error st;
     lastUpdate := d; connectionStatus := connectionStatus st |}.

Definition setConnectionStatus (s : string) (st : App) : App :=
  {| currentLocation := currentLocation st; isLoading := isLoading st; error := error st;
     lastUpdate := lastUpdate st; connectionStatus := s |}.

(** The guard of [updateLocationData]:
    [data && data.temperature !== undefined]. *)
Definition accepted (data : JsVal) : bool :=
  truthy data && negb (is_undefined data.["temperature"]).

(** The object literal [updateLocationData] passes to [setCurrentLocation]. *)
Definition shown (data : JsVal) : Location := {|
  latitude := data.["location"]?.["latitude"] || JNum site_latitude;
  longitude := data.["location"]?.["longitude"] || JNum site_longitude;
  temperature := data.["temperature"] || JNum (num 0);
  humidity := data.["humidity"] || JNum (num 0);
  voc := data.["vocIndex"] || JNum (num 0);
  pm25 := data.["pm25"] || JNum (num 0);
  pm10 := data.["pm10"] || JNum (num 0);
  pm1 := data.["pm1"] || JNum (num 0);
  rainfall := data.["rainfall"] || JNum (num 0);
  windSpeed := data.["windSpeed"] || JNum (num 0);
  windDirection := data.["windDirection"] || JStr "Unknown"
|}.

Definition updateLocationData (data : JsVal) (st : App) : App :=
  if accepted data then
    setLastUpdate (Some (Date_new data.["timestamp"]))
      (setCurrentLocation (shown data) st)
  else st.

(** The listener of the push channel: [socket.on('sensor-data', ...)]. *)
Definition on_sensor_data (data : JsVal) (st : App) : App :=
  updateLocationData data st.

(** [fetchLatestData], the poll; [response] is what [axios.get] resolves to,
    [None] when the request fails. *)
Definition fetchLatestData (response : option JsVal) (st : App) : App :=
  let st := setIsLoading true st in
  match response with
  | Some data =>
      setError None (setIsLoading false (updateLocationData data st))
  | None =>
      setIsLoading false
        (setError (Some "Failed to fetch sensor data. Make sure the backend is running.") st)
  end.

(** The doubles that the literals [35.4], [55.4], [150.4] and [250.4]
    denote: the first two lie just below the decimal, the last two just
    above it. *)
Definition double_35_4 : Q := 4982107087778611 # 140737488355328.
Definition double_55_4 : Q := 7796856854885171 # 140737488355328.
Definition double_150_4 : Q := 5291729562160333 # 35184372088832.
Definition double_250_4 : Q := 8810166771043533 # 35184372088832.

(** [calculateAQI], on the numbers [pm25] can be. *)
Definition calculateAQI (pm25 : number) : string :=
  if num_le pm25 (num 12) then "Good"
  else if num_le pm25 (Fin double_35_4) then "Moderate"
  else if num_le pm25 (Fin double_55_4) then "Unhealthy for Sensitive Groups"
  else if num_le pm25 (Fin double_150_4) then "Unhealthy"
  else if num_le pm25 (Fin double_250_4) then "Very Unhealthy"
  else "Hazardous".

(** The six labels, least severe first. *)
Definition labels : list string :=
  ["Good"; "Moderate"; "Unhealthy for Sensitive Groups"; "Unhealthy";
   "Very Unhealthy"; "Hazardous"].

(** Position of a label in [labels]; [length labels] for any other string. *)
Fixpoint index_of (l : string) (ls : list string) : nat :=
  match ls with
  | [] => 0
  | x :: ls => if String.eqb l x then 0 else S (index_of l ls)
  end.

Definition severity (l : string) : nat := index_of l labels.

(** Two readings of the same sensor, one taken at time 200 and an earlier one
    taken at time 100, and a value that is no reading. *)
Definition reading_at_200 : JsVal :=
  obj [("temperature", JNum (num 30)); ("humidity", JNum (num 55));
       ("pm25", JNum (num 40)); ("timestamp", ms 200)].

Definition reading_at_100 : JsVal :=
  obj [("temperature", JNum (num 20)); ("humidity", JNum (num 70));
       ("pm25", JNum (num 8)); ("timestamp", ms 100)].

Definition no_temperature : JsVal :=
  obj [("humidity", JNum (num 70)); ("timestamp", ms 300)].

End Client.

(** ** The backend

    [server.js] leaves validation, storage and delivery to Mongoose, MongoDB
    and Socket.IO.  What the handlers rely on is modelled as follows.

    - A document is validated when it is saved.  A [required] path fails when
      nothing, or [null], was given for it (for a [String] path also when the
      empty string was given); any path fails when the value given does not
      cast to its type.  A failed validation throws and writes nothing.
    - A [default] fills a path only when nothing was given for it, and does
      so when the document is constructed.
    - A query, like a write, throws while the connection is down.
    - Sorting by [timestamp: -1] lists the readings with a timestamp from the
      latest to the earliest, then those whose timestamp is [null].
    - A range condition on [timestamp] matches no reading whose timestamp is
      [null], and a bound that is an [Invalid Date] makes the query throw.
    - [io.emit] delivers to the clients connected at the time of the call.

    A request body is taken path by path, as Mongoose's casts classify it
    ([Given]); bodies that give [location] as something else than an object,
    or bring their own [_id], are outside the model. *)

Module Server.

(** *** Documents

    What a request supplies for one schema path, as Mongoose's cast of that
    path sees it: nothing ([undefined], the key is not there), [null], a
    value the path's type cannot take (a [CastError] at validation), or a
    value of the type. *)
Inductive Given (A : Type) :=
| Absent
| Null
| Invalid
| Value (a : A).
Arguments Absent {A}.
Arguments Null {A}.
Arguments Invalid {A}.
Arguments Value {A} a.

(** [sensorDataSchema], path by path.  [R] wraps the paths declared
    [required: true], [O] the paths declared with a [default]; the nested
    paths [location.latitude] and [location.longitude] are listed flat, the
    way Mongoose keeps them.  Dates are milliseconds since the epoch. *)
Record SensorData (R O : Type -> Type) := {
  temperature : R number;
  humidity : R number;
  vocIndex : R number;
  vocRaw : R number;
  pm1 : R number;
  pm25 : R number;
  pm10 : R number;
  rainfall : R number;
  windSpeed : R number;
  windDirection : R string;
  location_latitude : O number;
  location_longitude : O number;
  timestamp : O Z
}.
Arguments temperature {R O} s.
Arguments humidity {R O} s.
Arguments vocIndex {R O} s.
Arguments vocRaw {R O} s.
Arguments pm1 {R O} s.
Arguments pm25 {R O} s.
Arguments pm10 {R O} s.
Arguments rainfall {R O} s.
Arguments windSpeed {R O} s.
Arguments windDirection {R O} s.
Arguments location_latitude {R O} s.
Arguments location_longitude {R O} s.
Arguments timestamp {R O} s.

(** A request body: every path as given.  A body that omits [location], or
    gives it as an empty object, has both location paths [Absent]. *)
Definition Payload : Type := SensorData Given Given.

(** A reading that passed validation: required paths hold a value, the
    others a value or [null]. *)
Definition Reading : Type := SensorData (fun A => A) option.

Definition ObjectId : Type := nat.

(** The Mongoose document [new SensorData(body)]. *)
Record Document := {
  doc_id : ObjectId;
  paths : Payload
}.

(** A document of the collection. *)
Record StoredReading := {
  _id : ObjectId;
  fields : Reading
}.

Definition default_latitude : number := dec 6791164 1000000.
Definition default_longitude : number := dec 79900497 1000000.

(** A default fills a path only when nothing was given for it. *)
Definition with_default {A} (d : A) (g : Given A) : Given A :=
  match g with
  | Absent => Value d
  | _ => g
  end.

(** The schema defaults; [now] is what [Date.now] returns. *)
Definition apply_defaults (now : Z) (body : Payload) : Payload := {|
  temperature := temperature body;
  humidity := humidity body;
  vocIndex := vocIndex body;
  vocRaw := vocRaw body;
  pm1 := pm1 body;
  pm25 := pm25 body;
  pm10 := pm10 body;
  rainfall := rainfall body;
  windSpeed := windSpeed body;
  windDirection := windDirection body;
  location_latitude := with_default default_latitude (location_latitude body);
  location_longitude := with_default default_longitude (location_longitude body);
  timestamp := with_default now (timestamp body)
|}.

(** [required: true]: the path must hold a value. *)
Definition required {A} (g : Given A) : option A :=
  match g with
  | Value a => Some a
  | _ => None
  end.

(** A required [String] path must moreover not be empty. *)
Definition required_string (g : Given string) : option string :=
  match g with
  | Value s => if String.eqb s "" then None else Some s
  | _ => None
  end.

(** A path that is not required may stay unset or [null]; a value that does
    not cast still fails validation. *)
Definition optional {A} (g : Given A) : option (option A) :=
  match g with
  | Value a => Some (Some a)
  | Absent | Null => Some None
  | Invalid => None
  end.

(** Validation of a document: [None] is Mongoose's [ValidationError]. *)
Definition validate (p : Payload) : option Reading :=
  temperature ← required (temperature p);
  humidity ← required (humidity p);
  vocIndex ← required (vocIndex p);
  vocRaw ← required (vocRaw p);
  pm1 ← required (pm1 p);
  pm25 ← required (pm25 p);
  pm10 ← required (pm10 p);
  rainfall ← required (rainfall p);
  windSpeed ← required (windSpeed p);
  windDirection ← required_string (windDirection p);
  latitude ← optional (location_latitude p);
  longitude ← optional (location_longitude p);
  timestamp ← optional (timestamp p);
  Some {|
    temperature := temperature; humidity := humidity; vocIndex := vocIndex;
    vocRaw := vocRaw; pm1 := pm1; pm25 := pm25; pm10 := pm10;
    rainfall := rainfall; windSpeed := windSpeed;
    windDirection := windDirection;
    location_latitude := latitude; location_longitude := longitude;
    timestamp := timestamp
  |}.

Definition stored (doc : Document) : option StoredReading :=
  r ← validate (paths doc); Some {| _id := doc_id doc; fields := r |}.

(** *** The world a handler runs in *)

Definition SocketId : Type := nat.

Inductive ResBody :=
| JsonReading (d : StoredReading)
| JsonDefault (r : Reading)
| JsonList (data : list StoredReading)
| JsonPage (data : list StoredReading) (page limit total pages : number)
| JsonSuccess (message : string)
| JsonError (error : string).

Inductive Event :=
| Inserted (d : StoredReading)
| Emitted (to : SocketId) (event : string) (doc : Document)
| Logged (message : string)
| Responded (status : Z) (body : ResBody).

(** The last field is MongoDB's choice of the order in which a sorted query
    lists documents whose sort keys are equal: the rank it gives each
    document.  Nothing in the program fixes it and it need not be the same
    in two queries, so it depends on what has happened so far and on the
    [skip] and the [limit] of the query. *)
Record World := {
  db : list StoredReading;      (* the collection, in insertion order *)
  connected : bool;             (* the MongoDB connection is up *)
  sockets : list SocketId;      (* the Socket.IO clients connected now *)
  clock : Z;                    (* the current time *)
  next_id : ObjectId;           (* the next identity to hand out *)
  trace : list Event;           (* what happened so far, oldest first *)
  tie_break : list Event -> number -> number -> StoredReading -> Z
}.

Inductive Error :=
| ValidationError
| CastError
| MongoError.

Inductive Result (A : Type) :=
| Ok (a : A)
| Throw (e : Error).
Arguments Ok {A} a.
Arguments Throw {A} e.

(** Handlers thread the world and may throw. *)
Definition M (A : Type) : Type := World -> Result A * World.

Definition ret {A} (a : A) : M A := fun w => (Ok a, w).

Definition bind {A B} (m : M A) (k : A -> M B) : M B :=
  fun w =>
    match m w with
    | (Ok a, w') => k a w'
    | (Throw e, w') => (Throw e, w')
    end.

Definition throw {A} (e : Error) : M A := fun w => (Throw e, w).

(** [try { body } catch (error) { handler }]: what [body] did before it threw
    stays done. *)
Definition try_catch {A} (body : M A) (handler : Error -> M A) : M A :=
  fun w =>
    match body w with
    | (Ok a, w') => (Ok a, w')
    | (Throw e, w') => handler e w'
    end.

Declare Scope handler_scope.
Delimit Scope handler_scope with handler.
Bind Scope handler_scope with M.
Notation "x <- m ;; k" := (bind m (fun x => k))
  (at level 100, m at next level, right associativity) : handler_scope.
Notation "m ;; k" := (bind m (fun _ => k))
  (at level 100, right associativity) : handler_scope.

Definition get : M World := fun w => (Ok w, w).

Definition record (e : list Event) : M unit :=
  fun w => (Ok tt,
            {| db := db w; connected := connected w; sockets := sockets w;
               clock := clock w; next_id := next_id w;
               trace := trace w ++ e; tie_break := tie_break w |}).

Definition Date_now : M Z := fun w => (Ok (clock w), w).

Definition new_ObjectId : M ObjectId :=
  fun w => (Ok (next_id w),
            {| db := db w; connected := connected w; sockets := sockets w;
               clock := clock w; next_id := S (next_id w);
               trace := trace w; tie_break := tie_break w |}).

Definition insert (d : StoredReading) : M unit :=
  fun w => (Ok tt,
            {| db := db w ++ [d]; connected := connected w;
               sockets := sockets w; clock := clock w; next_id := next_id w;
               trace := trace w ++ [Inserted d]; tie_break := tie_break w |}).

Definition console_log (message : string) : M unit := record [Logged message].
Definition console_error (message : string) : M unit := record [Logged message].

Definition res_json (body : ResBody) : M unit := record [Responded 200 body].
Definition res_status_json (status : Z) (body : ResBody) : M unit :=
  record [Responded status body].

(** [io.emit(event, doc)]: one delivery to each client connected now. *)
Definition io_emit (event : string) (doc : Document) : M unit :=
  (w <- get ;; record (map (fun s => Emitted s event doc) (sockets w)))%handler.

(** [new SensorData(body)]. *)
Definition new_SensorData (body : Payload) : M Document :=
  (id <- new_ObjectId ;;
   now <- Date_now ;;
   ret {| doc_id := id; paths := apply_defaults now body |})%handler.

(** [doc.save()]: validate, then write. *)
Definition save (doc : Document) : M unit :=
  match stored doc with
  | None => throw ValidationError
  | Some d =>
      (w <- get ;;
       if connected w then insert d else throw MongoError)%handler
  end.

(** *** Queries

    The sort key [timestamp: -1].  MongoDB orders [null] below every date,
    so a descending sort lists readings without a timestamp last.  Where a
    query answers with the first reading of the listing, or with all of it,
    readings with equal keys are listed in the order [merge_sort] leaves
    them, and nothing proved of these queries depends on that order. *)
Definition key_le (a b : option Z) : bool :=
  match a, b with
  | None, _ => true
  | Some _, None => false
  | Some x, Some y => x <=? y
  end.

Definition ts (d : StoredReading) : option Z := timestamp (fields d).

(** [a] may come before [b] in descending order. *)
Definition newer_first (a b : StoredReading) : Prop :=
  key_le (ts b) (ts a) = true.

#[global] Instance newer_first_dec a b : Decision (newer_first a b).
Proof. unfold newer_first. apply _. Defined.

Definition sort_desc (l : list StoredReading) : list StoredReading :=
  merge_sort newer_first l.

(** Running a query needs the connection. *)
Definition exec {A} (q : list StoredReading -> Result A) : M A :=
  fun w => if connected w then (q (db w), w) else (Throw MongoError, w).

(** [SensorData.findOne().sort({ timestamp: -1 })]. *)
Definition findOne_sort : M (option StoredReading) :=
  exec (fun docs => Ok (head (sort_desc docs))).

(** In a query that is cut into pages the order of equal keys shows: [a]
    may come before [b] in a listing that breaks ties by [rank]. *)
Definition listed_before (rank : StoredReading -> Z) (a b : StoredReading) : Prop :=
  if decide (ts a = ts b) then rank a <= rank b else newer_first a b.

#[global] Instance listed_before_dec rank a b : Decision (listed_before rank a b).
Proof. unfold listed_before. destruct (decide (ts a = ts b)); apply _. Defined.

Definition sort_desc_by (rank : StoredReading -> Z) (l : list StoredReading) :
    list StoredReading :=
  merge_sort (listed_before rank) l.

(** How the server reads the number given for [skip] or [limit]: as a
    64-bit integer, [NaN] as zero and a number beyond the range as the end
    of the range. *)
Definition safe_long (n : number) : Z :=
  match n with
  | NaN => 0
  | PInf => 2 ^ 63 - 1
  | NInf => - 2 ^ 63
  | Fin q => Z.max (- 2 ^ 63) (Z.min (2 ^ 63 - 1) (Z.quot (Qnum q) (Z.pos (Qden q))))
  end.

(** The documents after the first [n], and the first [n] documents. *)
Definition after {A} (n : Z) (l : list A) : list A :=
  if Z.of_nat (length l) <=? n then [] else drop (Z.to_nat n) l.

Definition at_most {A} (n : Z) (l : list A) : list A :=
  if Z.of_nat (length l) <=? n then l else take (Z.to_nat n) l.

(** [SensorData.find().sort({ timestamp: -1 }).skip(skip).limit(limit)].
    Documents with equal timestamps are listed in the order MongoDB chooses
    for this query ([tie_break]).  MongoDB refuses a negative skip.  A limit
    of zero means no limit, and the driver sends a negative limit as its
    absolute value and asks for a single batch, which holds at most 101
    documents. *)
Definition find_sort_skip_limit (skip limit : number) : M (list StoredReading) :=
  (w <- get ;;
   exec (fun docs =>
     let s := safe_long skip in
     let l := safe_long limit in
     if s <? 0 then Throw MongoError
     else
       let rest := after s (sort_desc_by (tie_break w (trace w) skip limit) docs) in
       Ok (if l =? 0 then rest
           else if l <? 0 then at_most (Z.min (- l) 101) rest
           else at_most l rest)))%handler.

(** [SensorData.countDocuments()]. *)
Definition countDocuments : M number :=
  exec (fun docs => Ok (double (inject_Z (Z.of_nat (length docs))))).

(** A date-valued query parameter, by what the handler observes of the
    string: whether it is there and not empty, and the time value
    [new Date(s)] gives it ([Date.parse] is implementation-defined beyond
    the ISO format, so the string itself is not interpreted here). *)
Inductive DateParam :=
| NotGiven                 (* [undefined], or the empty string *)
| NotADate                 (* a string [new Date] maps to [Invalid Date] *)
| Instant (t : Z).         (* a string [new Date] maps to the time [t] *)

(** [!startDate]. *)
Definition falsy_param (p : DateParam) : bool :=
  match p with NotGiven => true | _ => false end.

(** [new Date(startDate)], for a parameter that is given: [None] is
    [Invalid Date]. *)
Definition new_Date (p : DateParam) : option Z :=
  match p with Instant t => Some t | _ => None end.

Definition in_range (s e : Z) (d : StoredReading) : bool :=
  match ts d with
  | Some t => (s <=? t) && (t <=? e)
  | None => false
  end.

(** [SensorData.find({ timestamp: { $gte: s, $lte: e } }).sort({ timestamp: -1 })].
    Mongoose casts the bounds to the path's type first and throws a
    [CastError] for an [Invalid Date]. *)
Definition find_range_sort (s e : option Z) : M (list StoredReading) :=
  match s, e with
  | Some s, Some e => exec (fun docs => Ok (sort_desc (filter (fun d => in_range s e d = true) docs)))
  | _, _ => throw CastError
  end.

(** *** [parseInt] on a query-string parameter *)

(** Characters are code units below 256; among them the white space
    [parseInt] skips is TAB, LF, VT, FF, CR, SP and NBSP. *)
Definition is_space (a : ascii) : bool :=
  let n := nat_of_ascii a in
  ((9 <=? n) && (n <=? 13) || (n =? 32) || (n =? 160))%nat.

Fixpoint trim_start (s : string) : string :=
  match s with
  | String a s' => if is_space a then trim_start s' else s
  | EmptyString => s
  end.

Definition digit (radix : Z) (a : ascii) : option Z :=
  let n := Z.of_nat (nat_of_ascii a) in
  let v :=
    if (48 <=? n) && (n <=? 57) then Some (n - 48)
    else if (97 <=? n) && (n <=? 122) then Some (n - 87)
    else if (65 <=? n) && (n <=? 90) then Some (n - 55)
    else None in
  match v with
  | Some d => if d <? radix then Some d else None
  | None => None
  end.

(** The longest prefix of digits, most significant first; [acc] is [None]
    until a digit has been read. *)
Fixpoint digits (radix : Z) (acc : option Z) (s : string) : option Z :=
  match s with
  | String a s' =>
      match digit radix a with
      | Some d => digits radix (Some (radix * default 0 acc + d)) s'
      | None => acc
      end
  | EmptyString => acc
  end.

(** [parseInt(v)] with no radix.  A parameter that is not there is
    [undefined], which reads as the string ["undefined"].  The result is the
    double nearest to the integer the digits denote. *)
Definition parseInt (v : option string) : number :=
  let s := trim_start (default "undefined" v) in
  let '(sign, s) :=
    match s with
    | String "-" s' => (-1, s')
    | String "+" s' => (1, s')
    | _ => (1, s)
    end in
  let '(radix, s) :=
    match s with
    | String "0" (String "x" s') | String "0" (String "X" s') => (16, s')
    | _ => (10, s)
    end in
  match digits radix None s with
  | Some n => double (inject_Z (sign * n))
  | None => NaN
  end.

(** [n || d] for a number [n]: [NaN] and zero are falsy. *)
Definition or_default (n d : number) : number :=
  if truthy (JNum n) then n else d.

(** The least integer that is not below [a / b], for integers [a] and [b],
    [b] not zero. *)
Definition ceil_div (a b : Z) : Z := - ((- a) / b).

(** *** The handlers *)

(** The placeholder [GET /api/latest] answers with while the collection is
    empty. *)
Definition default_data (now : Z) : Reading := {|
  temperature := num 25;
  humidity := num 60;
  vocIndex := num 100;
  vocRaw := num 25000;
  pm1 := num 5;
  pm25 := num 10;
  pm10 := num 15;
  rainfall := num 0;
  windSpeed := dec 25 10;
  windDirection := "N";
  location_latitude := Some default_latitude;
  location_longitude := Some default_longitude;
  timestamp := Some now
|}.

(** [app.get('/api/latest', ...)]. *)
Definition get_api_latest : M unit :=
  try_catch
    (latestData <- findOne_sort ;;
     match latestData with
     | None => now <- Date_now ;; res_json (JsonDefault (default_data now))
     | Some d => res_json (JsonReading d)
     end)%handler
    (fun error =>
       console_error "Error fetching latest data:" ;;
       res_status_json 500 (JsonError "Failed to fetch sensor data"))%handler.

(** [app.get('/api/data', ...)]; [q_page] and [q_limit] are [req.query.page]
    and [req.query.limit]. *)
Definition get_api_data (q_page q_limit : option string) : M unit :=
  try_catch
    (let page := or_default (parseInt q_page) (num 1) in
     let limit := or_default (parseInt q_limit) (num 50) in
     let skip := js_mul (js_sub page (num 1)) limit in
     data <- find_sort_skip_limit skip limit ;;
     total <- countDocuments ;;
     res_json (JsonPage data page limit total (Math_ceil (js_div total limit))))%handler
    (fun error =>
       console_error "Error fetching data:" ;;
       res_status_json 500 (JsonError "Failed to fetch sensor data"))%handler.

(** [app.get('/api/data/range', ...)]. *)
Definition get_api_data_range (startDate endDate : DateParam) : M unit :=
  try_catch
    (if falsy_param startDate || falsy_param endDate then
       res_status_json 400 (JsonError "Start date and end date are required")
     else
       data <- find_range_sort (new_Date startDate) (new_Date endDate) ;;
       res_json (JsonList data))%handler
    (fun error =>
       console_error "Error fetching data range:" ;;
       res_status_json 500 (JsonError "Failed to fetch sensor data"))%handler.

(** [app.post('/api/arduino', ...)]; [body] is [req.body]. *)
Definition post_api_arduino (body : Payload) : M unit :=
  try_catch
    (sensorData <- new_SensorData body ;;
     save sensorData ;;
     io_emit "sensor-data" sensorData ;;
     console_log "New sensor data received and saved:" ;;
     res_json (JsonSuccess "Data saved successfully"))%handler
    (fun error =>
       console_error "Error saving sensor data:" ;;
       res_status_json 500 (JsonError "Failed to save sensor data"))%handler.

(** The events of a refused and of a successful ingest. *)
Definition ingest_failure : list Event :=
  [Logged "Error saving sensor data:";
   Responded 500 (JsonError "Failed to save sensor data")].

Definition ingest_success (doc : Document) (d : StoredReading) (to : list SocketId) : list Event :=
  Inserted d :: map (fun s => Emitted s "sensor-data" doc) to ++
  [Logged "New sensor data received and saved:";
   Responded 200 (JsonSuccess "Data saved successfully")].

(** The events of a range query that threw. *)
Definition range_failure : list Event :=
  [Logged "Error fetching data range:";
   Responded 500 (JsonError "Failed to fetch sensor data")].

(** The required numeric paths of a body. *)
Definition numeric_paths (p : Payload) : list (Given number) :=
  [temperature p; humidity p; vocIndex p; vocRaw p; pm1 p; pm25 p; pm10 p;
   rainfall p; windSpeed p].

(** What a handler did, given the world it started in. *)
Definition run (h : M unit) (w : World) : World := snd (h w).

(** The events a handler added to the trace. *)
Definition events (h : M unit) (w : World) : list Event :=
  drop (length (trace w)) (trace (run h w)).

Definition responses (t : list Event) : list (Z * ResBody) :=
  omap (fun e => match e with Responded s b => Some (s, b) | _ => None end) t.

Definition emissions (t : list Event) : list (SocketId * string * Document) :=
  omap (fun e => match e with Emitted s n d => Some (s, n, d) | _ => None end) t.

Definition insertions (t : list Event) : list StoredReading :=
  omap (fun e => match e with Inserted d => Some d | _ => None end) t.

(** The [data] of the pages answered. *)
Definition page_data (t : list Event) : list StoredReading :=
  mjoin (omap (fun e => match e with
                        | Responded _ (JsonPage data _ _ _ _) => Some data
                        | _ => None
                        end) t).

(** A device payload with every path but the location and the timestamp, the
    same without [humidity], and a world with two viewers connected. *)
Definition full_body : Payload := {|
  temperature := Value (dec 255 10);
  humidity := Value (num 60);
  vocIndex := Value (num 100);
  vocRaw := Value (num 25000);
  pm1 := Value (num 5);
  pm25 := Value (num 10);
  pm10 := Value (num 15);
  rainfall := Value (num 0);
  windSpeed := Value (dec 25 10);
  windDirection := Value "N";
  location_latitude := Absent;
  location_longitude := Absent;
  timestamp := Absent
|}.

Definition without_humidity : Payload := {|
  temperature := Value (dec 255 10);
  humidity := Absent;
  vocIndex := Value (num 100);
  vocRaw := Value (num 25000);
  pm1 := Value (num 5);
  pm25 := Value (num 10);
  pm10 := Value (num 15);
  rainfall := Value (num 0);
  windSpeed := Value (dec 25 10);
  windDirection := Value "N";
  location_latitude := Absent;
  location_longitude := Absent;
  timestamp := Absent
|}.

(** What [full_body] is stored as when it is the first post, at time 1000. *)
Definition full_body_stored : StoredReading := {|
  _id := 0%nat;
  fields := {|
    temperature := dec 255 10;
    humidity := num 60;
    vocIndex := num 100;
    vocRaw := num 25000;
    pm1 := num 5;
    pm25 := num 10;
    pm10 := num 15;
    rainfall := num 0;
    windSpeed := dec 25 10;
    windDirection := "N";
    location_latitude := Some default_latitude;
    location_longitude := Some default_longitude;
    timestamp := Some 1000
  |}
|}.

Definition empty_world : World := {|
  db := []; connected := true; sockets := [7; 9]%nat; clock := 1000;
  next_id := 0%nat; trace := [];
  tie_break := fun _ _ _ d => Z.of_nat (_id d)
|}.

(** The world after one, and after three, accepted posts. *)
Definition one_reading : World := run (post_api_arduino full_body) empty_world.

Definition tick (t : Z) (w : World) : World :=
  {| db := db w; connected := connected w; sockets := sockets w;
     clock := t; next_id := next_id w; trace := trace w;
     tie_break := tie_break w |}.

Definition three_readings : World :=
  run (post_api_arduino full_body)
    (tick 3000 (run (post_api_arduino full_body) (tick 2000 one_reading))).

(** Two readings stored within the same millisecond, in a world where the
    order of equal keys depends on the [skip] of the query. *)
Definition tied_readings : World :=
  let w := run (post_api_arduino full_body) one_reading in
  {| db := db w; connected := connected w; sockets := sockets w;
     clock := clock w; next_id := next_id w; trace := trace w;
     tie_break := fun _ skip _ d =>
       if truthy (JNum skip) then - Z.of_nat (_id d) else Z.of_nat (_id d) |}.

End Server.

(** ** The viewer session

    The listeners [App] installs on its socket and the poll it runs on a
    timer, as events that reach the state one at a time.  [fetchLatestData]
    is asynchronous: it raises [isLoading], awaits the answer, and only then
    applies it, so other events can arrive in between. *)

Module Session.
Import Client.

(** [socket.on('connect', ...)] and [socket.on('disconnect', ...)]. *)
Definition on_connect (st : App) : App := setConnectionStatus "Connected" st.
Definition on_disconnect (st : App) : App := setConnectionStatus "Disconnected" st.

(** [fetchLatestData] up to its [await], and from the [await] on; [response]
    is [None] when [axios.get] rejects. *)
Definition fetch_begin (st : App) : App := setIsLoading true st.

Definition fetch_end (response : option JsVal) (st : App) : App :=
  match response with
  | Some data =>
      setError None (setIsLoading false (updateLocationData data st))
  | None =>
      setIsLoading false
        (setError (Some "Failed to fetch sensor data. Make sure the backend is running.") st)
  end.

Inductive Event :=
| Connect
| Disconnect
| SensorData (data : JsVal)
| PollBegin
| PollEnd (response : option JsVal).

Definition handle (e : Event) (st : App) : App :=
  match e with
  | Connect => on_connect st
  | Disconnect => on_disconnect st
  | SensorData data => on_sensor_data data st
  | PollBegin => fetch_begin st
  | PollEnd response => fetch_end response st
  end.

Definition run (es : list Event) (st : App) : App :=
  fold_left (fun st e => handle e st) es st.

(** The reading an event carries, if any. *)
Definition reading_of (e : Event) : option JsVal :=
  match e with
  | SensorData data => Some data
  | PollEnd (Some data) => Some data
  | _ => None
  end.

(** The last reading of a run that the guard of [updateLocationData] lets
    through. *)
Definition last_accepted (es : list Event) : option JsVal :=
  last (filter (fun d => accepted d = true) (omap reading_of es)).

(** The status the last connection event of a run sets. *)
Definition status_of (e : Event) : option string :=
  match e with
  | Connect => Some "Connected"
  | Disconnect => Some "Disconnected"
  | _ => None
  end.

Definition last_status (es : list Event) : option string :=
  last (omap status_of es).

(** What [HomePage] returns: the spinner while [isLoading], else the map,
    with the error message above it when [error] is set. *)
Inductive Screen :=
| LoadingSpinner
| Map (error_message : bool).

Definition HomePage (st : App) : Screen :=
  if isLoading st then LoadingSpinner
  else Map (match error st with Some _ => true | None => false end).

(** A field of the view is fit to show when it is truthy or is the fallback
    of its [||]. *)
Definition fit (fallback v : JsVal) : Prop :=
  truthy v = true \/ v = fallback.

Definition well_formed (l : Location) : Prop :=
  fit (JNum site_latitude) (latitude l) /\
  fit (JNum site_longitude) (longitude l) /\
  fit (JNum (num 0)) (temperature l) /\
  fit (JNum (num 0)) (humidity l) /\
  fit (JNum (num 0)) (voc l) /\
  fit (JNum (num 0)) (pm25 l) /\
  fit (JNum (num 0)) (pm10 l) /\
  fit (JNum (num 0)) (pm1 l) /\
  fit (JNum (num 0)) (rainfall l) /\
  fit (JNum (num 0)) (windSpeed l) /\
  fit (JStr "Unknown") (windDirection l).

End Session.

(** ** The wire

    How a reading of the backend reaches the client: [res.json] and
    [io.emit] both send [JSON.stringify] of the document, and the client
    receives [JSON.parse] of that.  A finite number comes back as the same
    number; [JSON.stringify] writes an infinity or [NaN] as [null].  A date
    is written as its ISO string and an identity as its hexadecimal string:
    [iso] and [hex] stand for [Date.prototype.toISOString] and
    [ObjectId.prototype.toHexString]. *)

Module Wire.
Import Server.

Definition json_number (n : number) : JsVal :=
  match n with
  | Fin q => JNum (Fin q)
  | _ => JNull
  end.

Definition json_option {A} (f : A -> JsVal) (o : option A) : JsVal :=
  match o with
  | Some a => f a
  | None => JNull
  end.

Section Strings.
Variable iso : Z -> string.
Variable hex : ObjectId -> string.

Definition json_fields (r : Reading) : list (string * JsVal) :=
  [("temperature", json_number (temperature r));
   ("humidity", json_number (humidity r));
   ("vocIndex", json_number (vocIndex r));
   ("vocRaw", json_number (vocRaw r));
   ("pm1", json_number (pm1 r));
   ("pm25", json_number (pm25 r));
   ("pm10", json_number (pm10 r));
   ("rainfall", json_number (rainfall r));
   ("windSpeed", json_number (windSpeed r));
   ("windDirection", JStr (windDirection r));
   ("location",
    obj [("latitude", json_option json_number (location_latitude r));
         ("longitude", json_option json_number (location_longitude r))]);
   ("timestamp", json_option (fun t => JStr (iso t)) (timestamp r))].

(** The placeholder of [GET /api/latest], an object literal. *)
Definition json_reading (r : Reading) : JsVal := obj (json_fields r).

(** A document of the collection. *)
Definition json_stored (d : StoredReading) : JsVal :=
  obj (("_id", JStr (hex (_id d))) :: json_fields (fields d) ++
       [("__v", JNum (num 0))]).

(** What [axios.get] on [/api/latest] resolves to, given what the handler
    did: the parsed body of a 200 answer; [None] for any other answer, which
    [axios] rejects. *)
Definition axios_get_latest (evs : list Event) : option JsVal :=
  match responses evs with
  | [(200, JsonReading d)] => Some (json_stored d)
  | [(200, JsonDefault r)] => Some (json_reading r)
  | _ => None
  end.

(** One poll of the client against the backend in the world [w]. *)
Definition poll (w : World) (st : Client.App) : Client.App :=
  Session.fetch_end (axios_get_latest (events get_api_latest w))
    (Session.fetch_begin st).

(** What the clients connected in [w] are pushed by an ingest of [body]: the
    parsed payload of each delivery, with its recipient. *)
Definition pushes (body : Payload) (w : World) : list (SocketId * JsVal) :=
  omap (fun e =>
          match e with
          | (s, _, doc) => (fun d => (s, json_stored d)) <$> stored doc
          end)
       (emissions (events (post_api_arduino body) w)).

End Strings.

(** The number a shown field stands for. *)
Definition shows (v : JsVal) (n : number) : Prop :=
  match v, n with
  | JNum (Fin a), Fin b => (a == b)%Q
  | _, _ => False
  end.

(** How a stored number appears on the screen: with its own value when it is
    finite, and as 0 when it is not (it travels as [null]). *)
Definition shown_as (v : JsVal) (n : number) : Prop :=
  match n with
  | Fin _ => shows v n
  | _ => v = JNum (num 0)
  end.

End Wire.

(** ** The rest of the backend *)

Module Service.
Import Server.

(** A client connects: Socket.IO adds its socket to the ones [io.emit]
    reaches, then the listener of [io.on('connection', ...)] logs it. *)
Definition on_connection (s : SocketId) : M unit :=
  fun w => (Ok tt,
            {| db := db w; connected := connected w;
               sockets := sockets w ++ [s]; clock := clock w;
               next_id := next_id w;
               trace := trace w ++ [Logged "Client connected:"];
               tie_break := tie_break w |}).

(** A client disconnects: its socket is dropped, then the listener of
    [socket.on('disconnect', ...)] logs it. *)
Definition on_disconnect (s : SocketId) : M unit :=
  fun w => (Ok tt,
            {| db := db w; connected := connected w;
               sockets := filter (fun s' => s' <> s) (sockets w);
               clock := clock w; next_id := next_id w;
               trace := trace w ++ [Logged "Client disconnected:"];
               tie_break := tie_break w |}).

(** The JSON [GET /api/health] answers with; [mongodb] is
    [mongoose.connection.readyState === 1 ? 'Connected' : 'Disconnected']. *)
Record Health := {
  status : string;
  health_timestamp : Z;
  uptime : Q;
  mongodb : string
}.

(** [app.get('/api/health', ...)]; [process_uptime] is what
    [process.uptime()] returns.  The handler has no [try]: it calls nothing
    that throws, and it answers with the status 200. *)
Definition get_api_health (process_uptime : Q) : M (Z * Health) :=
  (now <- Date_now ;;
   w <- get ;;
   ret (200, {| status := "OK"; health_timestamp := now;
                uptime := process_uptime;
                mongodb := if connected w then "Connected" else "Disconnected" |}))%handler.

(** The ten calls of [Math.random()] one run of [POST /api/test-data] makes,
    in the order of the fields they are used for. *)
Record Draws := {
  r_temperature : Q;
  r_humidity : Q;
  r_vocIndex : Q;
  r_vocRaw : Q;
  r_pm1 : Q;
  r_pm25 : Q;
  r_pm10 : Q;
  r_rainfall : Q;
  r_windSpeed : Q;
  r_windDirection : Q
}.

Definition draws (d : Draws) : list Q :=
  [r_temperature d; r_humidity d; r_vocIndex d; r_vocRaw d; r_pm1 d;
   r_pm25 d; r_pm10 d; r_rainfall d; r_windSpeed d; r_windDirection d].

(** [Math.random()] returns a double from 0 inclusive to 1 exclusive. *)
Definition in_unit (r : Q) : Prop :=
  double r = Fin r /\ (0 <= r)%Q /\ (r < 1)%Q.

Definition compass : list string :=
  ["N"; "NE"; "E"; "SE"; "S"; "SW"; "W"; "NW"].

(** [array[i]] for a number [i]: [undefined] unless [i] is an integer within
    the array. *)
Definition index {A} (l : list A) (i : number) : option A :=
  match i with
  | Fin q =>
      if Qeq_bool q (inject_Z (Qfloor q)) && (0 <=? Qfloor q)
      then l !! Z.to_nat (Qfloor q)
      else None
  | _ => None
  end.

(** What a [Number] path makes of a number: [NaN] does not cast. *)
Definition cast_number (n : number) : Given number :=
  match n with
  | NaN => Invalid
  | _ => Value n
  end.

(** The object literal [testData]; each field of [d] is what the call of
    [Math.random()] for that field returned. *)
Definition testData (d : Draws) : Payload := {|
  temperature := cast_number (js_add (dec 255 10) (js_mul (Fin (r_temperature d)) (num 10)));
  humidity := cast_number (js_add (num 55) (js_mul (Fin (r_humidity d)) (num 20)));
  vocIndex := cast_number (js_add (num 100) (js_mul (Fin (r_vocIndex d)) (num 100)));
  vocRaw := cast_number (js_add (num 25000) (js_mul (Fin (r_vocRaw d)) (num 5000)));
  pm1 := cast_number (Math_floor (js_mul (Fin (r_pm1 d)) (num 20)));
  pm25 := cast_number (Math_floor (js_mul (Fin (r_pm25 d)) (num 35)));
  pm10 := cast_number (Math_floor (js_mul (Fin (r_pm10 d)) (num 50)));
  rainfall := cast_number (js_mul (Fin (r_rainfall d)) (num 2));
  windSpeed := cast_number (js_mul (Fin (r_windSpeed d)) (num 10));
  windDirection :=
    match index compass (Math_floor (js_mul (Fin (r_windDirection d)) (num 8))) with
    | Some s => Value s
    | None => Absent
    end;
  location_latitude := Value default_latitude;
  location_longitude := Value default_longitude;
  timestamp := Absent
|}.

(** Ten draws of the double nearest to 0.95, and ten draws of one half. *)
Definition draws_near_one : Draws :=
  let r := 4278419646001971 # 4503599627370496 in {|
  r_temperature := r; r_humidity := r; r_vocIndex := r; r_vocRaw := r;
  r_pm1 := r; r_pm25 := r; r_pm10 := r; r_rainfall := r; r_windSpeed := r;
  r_windDirection := r
|}.

Definition half_draws : Draws := {|
  r_temperature := 1 # 2; r_humidity := 1 # 2; r_vocIndex := 1 # 2;
  r_vocRaw := 1 # 2; r_pm1 := 1 # 2; r_pm25 := 1 # 2; r_pm10 := 1 # 2;
  r_rainfall := 1 # 2; r_windSpeed := 1 # 2; r_windDirection := 1 # 2
|}.

(** A route of the Express application. *)
Inductive Route :=
| GET (path : string)
| POST (path : string).

Inductive TestBody :=
| TestGenerated (message : string) (data : Payload)
| TestError (error : string).

(** What one run of [POST /api/test-data] leaves behind besides the world:
    the routes it registered on [app] and the answer it sent. *)
Record TestRun := {
  registered : list Route;
  answer : Z * TestBody
}.

(** [app.post('/api/test-data', ...)].  The handler registers
    [GET /api/test-data] on each run, before it saves. *)
Definition post_api_test_data (d : Draws) : M TestRun :=
  try_catch
    (let testData := testData d in
     sensorData <- new_SensorData testData ;;
     save sensorData ;;
     io_emit "sensor-data" sensorData ;;
     console_log "Test data generated and saved" ;;
     ret {| registered := [GET "/api/test-data"];
            answer := (200, TestGenerated "Test data generated" testData) |})%handler
    (fun error =>
       console_error "Error generating test data:" ;;
       ret {| registered := [GET "/api/test-data"];
              answer := (500, TestError "Failed to generate test data") |})%handler.

(** What reaches the server, one at a time. *)
Inductive Request :=
| Connection (s : SocketId)
| Disconnection (s : SocketId)
| GetLatest
| GetData (page limit : option string)
| GetRange (startDate endDate : DateParam)
| PostArduino (body : Payload).

Definition serve (r : Request) : M unit :=
  match r with
  | Connection s => on_connection s
  | Disconnection s => on_disconnect s
  | GetLatest => get_api_latest
  | GetData page limit => get_api_data page limit
  | GetRange startDate endDate => get_api_data_range startDate endDate
  | PostArduino body => post_api_arduino body
  end.

Definition serve_all (rs : list Request) (w : World) : World :=
  fold_left (fun w r => run (serve r) w) rs w.

(** The requests that are answered over HTTP. *)
Definition is_http (r : Request) : bool :=
  match r with
  | Connection _ | Disconnection _ => false
  | _ => true
  end.

Definition is_post (r : Request) : bool :=
  match r with
  | PostArduino _ => true
  | _ => false
  end.

(** The documents delivered to the socket [s]. *)
Definition inbox (s : SocketId) (t : list Event) : list Document :=
  omap (fun e =>
          match e with
          | Emitted s' _ doc => if decide (s' = s) then Some doc else None
          | _ => None
          end) t.

End Service.

(** * Properties of double arithmetic *)

Section DoubleProperties.
#[local] Open Scope Q_scope.

Example double_examples :
  double (1 # 10) = Fin (3602879701896397 # 36028797018963968) /\
  double (9007199254740993 # 1) = Fin (9007199254740992 # 1) /\
  double (9007199254740995 # 1) = Fin (9007199254740996 # 1) /\
  double (- (3 # 1)) = Fin (- 3 # 1) /\
  double (inject_Z (2 ^ 1024 - 2 ^ 970 - 1)) = Fin (inject_Z (2 ^ 1024 - 2 ^ 971)) /\
  double (inject_Z (2 ^ 1024 - 2 ^ 970)) = PInf /\
  double (1 # 2 ^ 1074) = Fin (1 # 2 ^ 1074) /\
  double (1 # 2 ^ 1075) = Fin 0 /\
  double (3 # 2 ^ 1075) = Fin (1 # 2 ^ 1073) /\
  js_mul (double (95 # 100)) (num 20) = num 19 /\
  js_mul (num 0) PInf = NaN /\
  js_div (num 3) PInf = num 0.
Proof. repeat split; vm_compute; reflexivity. Qed.

Lemma pow2_pos e : 0 < 2 ^ e.
Proof. by apply Qpower_0_lt. Qed.

Lemma pow2_Z m : (0 <= m)%Z -> 2 ^ m == inject_Z (2 ^ m).
Proof. intros H. by rewrite Zpower_Qpower. Qed.

Lemma pow2_add a b : 2 ^ (a + b) == 2 ^ a * 2 ^ b.
Proof. by apply Qpower_plus. Qed.

Lemma pow2_sub a b : 2 ^ (a - b) * 2 ^ b == 2 ^ a.
Proof. rewrite <- pow2_add. by replace (a - b + b)%Z with a by lia. Qed.

Lemma pow2_le a b : (a <= b)%Z -> 2 ^ a <= 2 ^ b.
Proof. intros H. apply Qpower_le_compat_l; [done|]. lra. Qed.

Lemma pow2_lt a b : (a < b)%Z -> 2 ^ a < 2 ^ b.
Proof. intros H. apply Qpower_lt_compat_l; [done|]. lra. Qed.

Lemma pow2_lt_inv a b : 2 ^ a < 2 ^ b -> (a < b)%Z.
Proof. intros H. apply (Qpower_lt_compat_l_inv 2); [done|]. lra. Qed.

Lemma Qmake_pos n d : 0 < n # d -> (0 < n)%Z.
Proof. unfold Qlt. simpl. lia. Qed.

Lemma Q_as_div n d : n # d == inject_Z n / inject_Z (Z.pos d).
Proof. apply Qmake_Qdiv. Qed.

Lemma exponent_le q : 0 < q -> 2 ^ exponent q <= q.
Proof.
  intros Hq. unfold exponent.
  destruct (Qle_bool _ q) eqn:E; [by apply Qle_bool_iff|]. clear E.
  destruct q as [n d]. cbn [Qnum Qden]. apply Qmake_pos in Hq.
  pose proof (Z.log2_spec n Hq) as [Hn _].
  pose proof (Z.log2_spec (Z.pos d) ltac:(lia)) as [_ Hd].
  pose proof (Z.log2_nonneg n). pose proof (Z.log2_nonneg (Z.pos d)).
  set (a := Z.log2 n) in *. set (b := Z.log2 (Z.pos d)) in *.
  replace (a - b - 1)%Z with (a - Z.succ b)%Z by lia.
  assert (2 ^ (a - Z.succ b) * 2 ^ Z.succ b == 2 ^ a) as H1 by apply pow2_sub.
  rewrite (pow2_Z a), (pow2_Z (Z.succ b)) in H1 by lia.
  pose proof (pow2_pos (a - Z.succ b)) as Hp.
  assert (inject_Z (Z.pos d) <= inject_Z (2 ^ Z.succ b)) as H2
    by (rewrite <- Zle_Qle; lia).
  assert (inject_Z (2 ^ a) <= inject_Z n) as H3 by (by rewrite <- Zle_Qle).
  assert (0 < inject_Z (Z.pos d)) as H4 by (by rewrite <- (Zlt_Qlt 0)).
  apply Qle_trans with (inject_Z n / inject_Z (Z.pos d));
    [|rewrite (Q_as_div n d); apply Qle_refl].
  apply Qle_shift_div_l; [done|].
  revert H1 Hp H2 H3 H4.
  generalize (2 ^ (a - Z.succ b)) (inject_Z (2 ^ Z.succ b)) (inject_Z (2 ^ a))
    (inject_Z n) (inject_Z (Z.pos d)).
  intros X B A N D H1 Hp H2 H3 H4.
  assert (0 <= X * (B - D)) by (apply Qmult_le_0_compat; lra). lra.
Qed.

Lemma exponent_lt q : 0 < q -> q < 2 ^ (exponent q + 1).
Proof.
  intros Hq. unfold exponent.
  destruct (Qle_bool _ q) eqn:E.
  - clear E. destruct q as [n d]. cbn [Qnum Qden]. apply Qmake_pos in Hq.
    pose proof (Z.log2_spec n Hq) as [_ Hn].
    pose proof (Z.log2_spec (Z.pos d) ltac:(lia)) as [Hd _].
    pose proof (Z.log2_nonneg n). pose proof (Z.log2_nonneg (Z.pos d)).
    set (a := Z.log2 n) in *. set (b := Z.log2 (Z.pos d)) in *.
    replace (a - b + 1)%Z with (Z.succ a - b)%Z by lia.
    assert (2 ^ (Z.succ a - b) * 2 ^ b == 2 ^ Z.succ a) as H1 by apply pow2_sub.
    rewrite (pow2_Z b), (pow2_Z (Z.succ a)) in H1 by lia.
    pose proof (pow2_pos (Z.succ a - b)) as Hp.
    assert (inject_Z (2 ^ b) <= inject_Z (Z.pos d)) as H2
      by (by rewrite <- Zle_Qle).
    assert (inject_Z n < inject_Z (2 ^ Z.succ a)) as H3 by (by rewrite <- Zlt_Qlt).
    assert (0 < inject_Z (Z.pos d)) as H4 by (by rewrite <- (Zlt_Qlt 0)).
    apply Qle_lt_trans with (inject_Z n / inject_Z (Z.pos d));
      [rewrite (Q_as_div n d); apply Qle_refl|].
    apply Qlt_shift_div_r; [done|].
    revert H1 Hp H2 H3 H4.
    generalize (2 ^ (Z.succ a - b)) (inject_Z (2 ^ b)) (inject_Z (2 ^ Z.succ a))
      (inject_Z n) (inject_Z (Z.pos d)).
    intros X B A N D H1 Hp H2 H3 H4.
    assert (0 <= X * (D - B)) by (apply Qmult_le_0_compat; lra). lra.
  - replace (_ - 1 + 1)%Z with (Z.log2 (Qnum q) - Z.log2 (Z.pos (Qden q)))%Z by lia.
    apply Qnot_le_lt. intros H. apply Qle_bool_iff in H. congruence.
Qed.

Lemma round_half_even_bounds t :
  inject_Z (round_half_even t) - (1 # 2) <= t /\
  t <= inject_Z (round_half_even t) + (1 # 2).
Proof.
  unfold round_half_even.
  pose proof (Qfloor_le t) as H1. pose proof (Qlt_floor t) as H2.
  rewrite inject_Z_plus in H2. change (inject_Z 1) with 1 in H2.
  destruct (Qcompare_spec (t - inject_Z (Qfloor t)) (1 # 2)) as [E|E|E].
  - destruct (Z.even _); rewrite ?inject_Z_plus;
      change (inject_Z 1) with 1; lra.
  - lra.
  - rewrite inject_Z_plus. change (inject_Z 1) with 1. lra.
Qed.

(** Rounding does not cross an integer. *)
Lemma round_half_even_le t z : t <= inject_Z z -> (round_half_even t <= z)%Z.
Proof.
  intros H. pose proof (round_half_even_bounds t) as [H1 _].
  assert (inject_Z (round_half_even t) < inject_Z (z + 1)) as H2
    by (rewrite inject_Z_plus; change (inject_Z 1) with 1; lra).
  rewrite <- Zlt_Qlt in H2. lia.
Qed.

Lemma round_half_even_ge t z : inject_Z z <= t -> (z <= round_half_even t)%Z.
Proof.
  intros H. pose proof (round_half_even_bounds t) as [_ H1].
  assert (inject_Z (z - 1) < inject_Z (round_half_even t)) as H2
    by (unfold Z.sub; rewrite inject_Z_plus; change (inject_Z (- (1))) with (- (1)); lra).
  rewrite <- Zlt_Qlt in H2. lia.
Qed.

Lemma round_half_even_gt t z :
  inject_Z z + (1 # 2) < t -> (z + 1 <= round_half_even t)%Z.
Proof.
  intros H. pose proof (round_half_even_bounds t) as [_ H1].
  assert (inject_Z z < inject_Z (round_half_even t)) as H2 by lra.
  rewrite <- Zlt_Qlt in H2. lia.
Qed.


Lemma nearest_reduced q v : nearest q = Some v -> Qred v = v.
Proof.
  unfold nearest. destruct (Qle_bool _ _); [done|]. intros [= <-].
  apply Qred_complete, Qred_correct.
Qed.

(** A double [x = z * 2^k] bounds what rounds to it: rounding does not
    cross it. *)
Lemma nearest_le q x z k :
  0 < q -> q <= x -> x == inject_Z z * 2 ^ k ->
  (0 < z < 2 ^ 53)%Z -> (-1074 <= k)%Z -> x < 2 ^ 1024 ->
  exists v, nearest q = Some v /\ v <= x.
Proof.
  intros Hq Hqx Hx Hz Hk Hmax.
  pose proof (exponent_le q Hq) as He.
  assert (exponent q - 52 <= k)%Z as Hek.
  { assert (2 ^ exponent q < 2 ^ (53 + k)) as H; [|apply pow2_lt_inv in H; lia].
    rewrite pow2_add, (pow2_Z 53) by lia.
    assert (inject_Z z < inject_Z (2 ^ 53)) by (rewrite <- Zlt_Qlt; lia).
    pose proof (pow2_pos k).
    assert (0 < (inject_Z (2 ^ 53) - inject_Z z) * 2 ^ k)
      by (apply Qmult_lt_0_compat; lra).
    lra. }
  unfold nearest.
  set (e := Z.max (exponent q) (-1022)).
  assert (e - 52 <= k)%Z as Hek' by lia.
  set (u := 2 ^ (e - 52)).
  assert (0 < u) as Hu by apply pow2_pos.
  assert (x == inject_Z (z * 2 ^ (k - (e - 52))) * u) as Hxu.
  { rewrite Hx, inject_Z_mult, <- pow2_Z by lia. unfold u.
    rewrite <- Qmult_assoc, pow2_sub. reflexivity. }
  assert (round_half_even (q / u) <= z * 2 ^ (k - (e - 52)))%Z as Hr.
  { apply round_half_even_le. apply Qle_shift_div_r; [done|]. by rewrite <- Hxu. }
  rewrite Zle_Qle in Hr.
  assert (inject_Z (round_half_even (q / u)) * u <= x) as Hv.
  { rewrite Hxu. apply Qmult_le_compat_r; [done|]. lra. }
  destruct (Qle_bool _ _) eqn:E.
  - apply Qle_bool_iff in E. lra.
  - eexists. split; [reflexivity|]. by rewrite Qred_correct.
Qed.

Lemma nearest_ge q x z k :
  0 < q -> x <= q -> x == inject_Z z * 2 ^ k ->
  (0 < z < 2 ^ 53)%Z -> (-1074 <= k)%Z ->
  match nearest q with Some v => x <= v | None => True end.
Proof.
  intros Hq Hqx Hx Hz Hk.
  pose proof (exponent_le q Hq) as He.
  unfold nearest.
  set (e := Z.max (exponent q) (-1022)).
  set (u := 2 ^ (e - 52)).
  assert (0 < u) as Hu by apply pow2_pos.
  destruct (Qle_bool _ _) eqn:E; [done|]. clear E.
  rewrite Qred_correct.
  destruct (Z_le_gt_dec (e - 52) k) as [Hek|Hek].
  - assert (x == inject_Z (z * 2 ^ (k - (e - 52))) * u) as Hxu.
    { rewrite Hx, inject_Z_mult, <- pow2_Z by lia. unfold u.
      rewrite <- Qmult_assoc, pow2_sub. reflexivity. }
    assert (z * 2 ^ (k - (e - 52)) <= round_half_even (q / u))%Z as Hr.
    { apply round_half_even_ge. apply Qle_shift_div_l; [done|]. by rewrite <- Hxu. }
    rewrite Zle_Qle in Hr. rewrite Hxu. apply Qmult_le_compat_r; [done|]. lra.
  - assert (e = exponent q) as Hee by lia.
    assert (2 ^ 52 <= round_half_even (q / u))%Z as Hr.
    { apply round_half_even_ge. apply Qle_shift_div_l; [done|].
      rewrite <- pow2_Z by lia. unfold u. rewrite <- pow2_add.
      replace (52 + (e - 52))%Z with (exponent q) by lia. done. }
    rewrite Zle_Qle in Hr. rewrite <- pow2_Z in Hr by lia.
    assert (x <= 2 ^ 52 * u) as Hxe.
    { unfold u. rewrite <- pow2_add. replace (52 + (e - 52))%Z with e by lia.
      rewrite Hx.
      assert (2 ^ (53 + k) <= 2 ^ e) as H1 by (apply pow2_le; lia).
      rewrite pow2_add, (pow2_Z 53) in H1 by lia.
      assert (inject_Z z <= inject_Z (2 ^ 53)) by (rewrite <- Zle_Qle; lia).
      pose proof (pow2_pos k).
      assert (0 <= (inject_Z (2 ^ 53) - inject_Z z) * 2 ^ k)
        by (apply Qmult_le_0_compat; lra).
      lra. }
    eapply Qle_trans; [exact Hxe|]. apply Qmult_le_compat_r; [done|]. lra.
Qed.

(** A double rounds to itself. *)
Lemma nearest_exact q z k :
  0 < q -> q == inject_Z z * 2 ^ k ->
  (0 < z < 2 ^ 53)%Z -> (-1074 <= k)%Z -> q < 2 ^ 1024 ->
  nearest q = Some (Qred q).
Proof.
  intros Hq Hx Hz Hk Hmax.
  destruct (nearest_le q q z k Hq ltac:(lra) Hx Hz Hk Hmax) as (v & Hv & Hle).
  pose proof (nearest_ge q q z k Hq ltac:(lra) Hx Hz Hk) as Hge.
  rewrite Hv in Hge. rewrite Hv. f_equal.
  rewrite <- (nearest_reduced _ _ Hv). apply Qred_complete. lra.
Qed.

Lemma Qred_inject_Z n : Qred (inject_Z n) = inject_Z n.
Proof.
  unfold Qred, inject_Z.
  pose proof (Z.ggcd_correct_divisors n 1) as H.
  pose proof (Z.ggcd_gcd n 1) as Hg. rewrite Z.gcd_1_r in Hg.
  destruct (Z.ggcd n 1) as [g [a b]]. simpl in *. subst g.
  destruct H as [-> Hb]. f_equal; lia.
Qed.

(** Integers up to 2^53 are doubles. *)
Lemma double_integer q n :
  q == inject_Z n -> (Z.abs n <= 2 ^ 53)%Z -> double q = num n.
Proof.
  intros Hq Hn. unfold double, num.
  assert (Z.sgn (Qnum q) = Z.sgn n) as Hs.
  { unfold Qeq in Hq. simpl in Hq. nia. }
  assert (forall p m, p == inject_Z m -> (0 < m <= 2 ^ 53)%Z ->
            nearest p = Some (inject_Z m)) as Hpos.
  { intros p m Hp Hm. rewrite <- Qred_inject_Z, <- (Qred_complete _ _ Hp).
    assert (0 < p) by (rewrite Hp, <- (Zlt_Qlt 0); lia).
    assert (p < 2 ^ 1024).
    { rewrite Hp, (pow2_Z 1024) by lia. rewrite <- Zlt_Qlt.
      eapply Z.le_lt_trans; [apply Hm|]. apply Z.pow_lt_mono_r; lia. }
    destruct (Z_lt_le_dec m (2 ^ 53)) as [Hlt|Hge].
    - apply (nearest_exact p m 0); try done; try lia;
        try (rewrite Hp; change (2 ^ 0) with 1; ring).
    - assert (m = 2 ^ 53)%Z as -> by lia.
      apply (nearest_exact p 1 53); try done; try lia;
        try (rewrite Hp, (pow2_Z 53) by lia; ring). }
  destruct (Qnum q) as [|a|a] eqn:E.
  - assert (n = 0)%Z as -> by (destruct n; simpl in Hs; lia). done.
  - rewrite (Hpos q n Hq); [done|]. destruct n; simpl in Hs; lia.
  - assert (- q == inject_Z (- n)%Z) as Hq' by (rewrite Hq, inject_Z_opp; reflexivity).
    rewrite (Hpos (- q) (- n)%Z Hq'); [|destruct n; simpl in Hs; lia].
    f_equal. unfold Qopp, inject_Z. simpl. f_equal. lia.
Qed.


Lemma double_not_NaN q : double q <> NaN.
Proof.
  unfold double. destruct (Qnum q); [done| |].
  - by destruct (nearest q).
  - by destruct (nearest (- q)).
Qed.

Lemma pow2_inv e : / 2 ^ e == 2 ^ (- e).
Proof. by rewrite Qpower_opp. Qed.

(** Rounding [q] does not reach an integer [j] below it when [q] is a
    quotient by [b] of an integer less than 2^53. *)
Lemma nearest_above q j b v :
  (0 <= j)%Z -> (1 <= b < 2 ^ 63)%Z ->
  inject_Z j + 1 / inject_Z b <= q -> q * inject_Z b < 2 ^ 53 ->
  nearest q = Some v -> inject_Z j < v.
Proof.
  intros Hj Hb Hjq Hqb Hv.
  assert (1 <= inject_Z b) as Hb1 by (rewrite <- (Zle_Qle 1); lia).
  assert (inject_Z b < 2 ^ 63) as Hb2
    by (rewrite (pow2_Z 63) by lia; rewrite <- Zlt_Qlt; lia).
  assert (0 <= inject_Z j) as Hj0 by (rewrite <- (Zle_Qle 0); lia).
  assert (0 < 1 / inject_Z b) as Hib by (apply Qlt_shift_div_l; lra).
  assert (0 < q) as Hq by lra.
  unfold nearest in Hv.
  set (e := Z.max (exponent q) (-1022)) in Hv.
  set (u := 2 ^ (e - 52)) in Hv.
  set (m := round_half_even (q / u)) in Hv.
  assert (v == inject_Z m * u) as ->.
  { destruct (Qle_bool _ _); [done|]. injection Hv as <-. apply Qred_correct. }
  clear Hv.
  assert (0 < u) as Hu by apply pow2_pos.
  assert (2 ^ e <= q) as He.
  { destruct (Z.max_spec (exponent q) (-1022)) as [[_ E] | [_ E]]; fold e in E;
      rewrite E; [|by apply exponent_le].
    apply Qle_trans with (2 ^ (-63)); [apply pow2_le; lia|].
    apply Qle_trans with (1 / inject_Z b); [|lra].
    apply Qle_shift_div_l; [lra|].
    assert (2 ^ (-63) * 2 ^ 63 == 1) as H1 by (by rewrite <- pow2_add).
    pose proof (pow2_pos (-63)) as H2.
    assert (2 ^ (-63) * inject_Z b <= 2 ^ (-63) * 2 ^ 63) as H3
      by (apply Qmult_le_l; lra).
    lra. }
  set (E := 2 ^ e) in *.
  set (P := 2 ^ (52 - e)).
  assert (0 < E) as HE by apply pow2_pos.
  assert (0 < P) as HP by apply pow2_pos.
  assert (P * E == 2 ^ 52) as HPE.
  { unfold P, E. rewrite <- pow2_add. by replace (52 - e + e)%Z with 52%Z by lia. }
  assert (P * u == 1) as HPu.
  { unfold P, u. rewrite <- pow2_add. by replace (52 - e + (e - 52))%Z with 0%Z by lia. }
  assert (inject_Z b * E < 2 ^ 53) as HbE.
  { eapply Qle_lt_trans; [|exact Hqb]. rewrite (Qmult_comm q).
    apply Qmult_le_l; lra. }
  assert (e <= 52)%Z as He52.
  { assert (2 ^ e < 2 ^ 53) as H; [|apply pow2_lt_inv in H; lia].
    fold E. eapply Qle_lt_trans; [|exact HbE].
    rewrite <- (Qmult_1_l E) at 1. apply Qmult_le_compat_r; lra. }
  assert (P == inject_Z (2 ^ (52 - e))) as HPZ by (apply pow2_Z; lia).
  assert (inject_Z b < 2 * P) as HbP.
  { apply (Qmult_lt_r _ _ E HE).
    assert (2 * P * E == 2 * (P * E)) as -> by ring.
    rewrite HPE. change (2 * 2 ^ 52) with (2 ^ 53). done. }
  assert (q / u == q * P) as Hqu.
  { unfold Qdiv. apply Qmult_comp; [reflexivity|].
    unfold u, P. rewrite pow2_inv. by replace (- (e - 52))%Z with (52 - e)%Z by lia. }
  assert (j * 2 ^ (52 - e) + 1 <= m)%Z as Hm.
  { apply round_half_even_gt. rewrite Hqu, inject_Z_mult, <- HPZ.
    assert ((inject_Z j + 1 / inject_Z b) * P <= q * P) as H1
      by (apply Qmult_le_compat_r; lra).
    assert (1 # 2 < P / inject_Z b) as H2 by (apply Qlt_shift_div_l; lra).
    assert ((inject_Z j + 1 / inject_Z b) * P ==
            inject_Z j * P + P / inject_Z b) as H3 by (field; lra).
    lra. }
  rewrite Zle_Qle, inject_Z_plus, inject_Z_mult, <- HPZ in Hm.
  change (inject_Z 1) with 1 in Hm.
  assert ((inject_Z j * P + 1) * u <= inject_Z m * u) as H3
    by (apply Qmult_le_compat_r; lra).
  assert ((inject_Z j * P + 1) * u == inject_Z j * (P * u) + u) as H4 by ring.
  rewrite HPu in H4. lra.
Qed.

(** [Math.ceil(a / b)] is the ceiling of the exact quotient for counts
    below 2^53. *)
Lemma ceil_of_quotient a b :
  (0 <= a < 2 ^ 53)%Z -> (1 <= b < 2 ^ 63)%Z ->
  Math_ceil (js_div (num a) (num b)) = num (- (- a / b)).
Proof.
  intros Ha Hb.
  set (k := (- (- a / b))%Z).
  assert ((k - 1) * b < a <= k * b)%Z as Hk.
  { subst k. pose proof (Z.mul_div_le (- a) b ltac:(lia)).
    pose proof (Z.mul_succ_div_gt (- a) b ltac:(lia)). nia. }
  unfold js_div, num.
  destruct b as [|b|b]; try lia. destruct a as [|a|a]; try lia.
  - assert (k = 0)%Z as -> by nia. done.
  - cbn [inject_Z Qnum Z.eqb].
    set (q := inject_Z (Z.pos a) / inject_Z (Z.pos b)).
    assert (Qnum q = Z.pos (a * 1)) as Hn by reflexivity.
    unfold double. rewrite Hn.
    assert (q * inject_Z (Z.pos b) == inject_Z (Z.pos a)) as Hqb.
    { unfold q. field.
      intros H. apply (Qlt_irrefl 0). rewrite <- H at 2.
      rewrite <- (Zlt_Qlt 0). lia. }
    assert (0 < inject_Z (Z.pos b)) as Hb0 by (rewrite <- (Zlt_Qlt 0); lia).
    assert (0 < q) as Hq.
    { apply (Qmult_lt_r _ _ _ Hb0). rewrite Hqb, Qmult_0_l, <- (Zlt_Qlt 0). lia. }
    assert (1 <= k)%Z as Hk1 by nia.
    assert (k <= Z.pos a)%Z as Hka by nia.
    assert (q <= inject_Z k) as Hqk.
    { apply (Qmult_le_r _ _ _ Hb0). rewrite Hqb, <- inject_Z_mult, <- Zle_Qle. lia. }
    destruct (nearest_le q (inject_Z k) k 0 Hq Hqk) as (v & Hv & Hvk);
      [change (2 ^ 0) with 1; ring | lia | lia | |].
    { rewrite (pow2_Z 1024) by lia. rewrite <- Zlt_Qlt.
      eapply Z.lt_trans; [|apply (Z.pow_lt_mono_r 2 53 1024); lia]. lia. }
    rewrite Hv. cbn [Math_ceil]. do 2 f_equal.
    assert (inject_Z (k - 1) < v) as Hjv.
    { apply (nearest_above q (k - 1) (Z.pos b) v); [lia|lia| | |done].
      - apply (Qmult_le_r _ _ _ Hb0). rewrite Hqb.
        assert ((inject_Z (k - 1) + 1 / inject_Z (Z.pos b)) * inject_Z (Z.pos b)
                == inject_Z (k - 1) * inject_Z (Z.pos b) + 1) as -> by (field; lra).
        rewrite <- inject_Z_mult. change 1 with (inject_Z 1).
        rewrite <- inject_Z_plus, <- Zle_Qle. lia.
      - rewrite Hqb, (pow2_Z 53) by lia. rewrite <- Zlt_Qlt. lia. }
    pose proof (Qle_ceiling v) as H1.
    apply Qceiling_resp_le in Hvk. rewrite Qceiling_Z in Hvk.
    assert (inject_Z (k - 1) < inject_Z (Qceiling v)) as H2 by lra.
    rewrite <- Zlt_Qlt in H2. lia.
Qed.

(** A double below 1 is at most [1 - 2^-53]. *)
Lemma double_below_one r :
  double r = Fin r -> r < 1 -> r <= 1 - (1 # 2 ^ 53).
Proof.
  intros Hd Hr. change (1 # 2 ^ 53) with (1 # 9007199254740992).
  destruct (Qlt_le_dec (1 # 2) r) as [Hh|Hh]; [|lra].
  assert (0 < r) as Hr0 by lra.
  assert (nearest r = Some r) as Hn.
  { unfold double in Hd. destruct r as [n d]. apply Qmake_pos in Hr0.
    destruct n as [|n|n]; try lia. cbn [Qnum] in Hd.
    destruct (nearest _); congruence. }
  pose proof (exponent_le r Hr0) as He1. pose proof (exponent_lt r Hr0) as He2.
  assert (exponent r = -1)%Z as He.
  { assert (2 ^ exponent r < 2 ^ 0) as H1
      by (eapply Qle_lt_trans; [exact He1|exact Hr]).
    assert (2 ^ (-1) < 2 ^ (exponent r + 1)) as H2
      by (eapply Qlt_trans; [exact Hh|exact He2]).
    apply pow2_lt_inv in H1, H2. lia. }
  unfold nearest in Hn. rewrite He in Hn.
  change (Z.max (-1) (-1022) - 52)%Z with (-53)%Z in Hn.
  set (m := round_half_even (r / 2 ^ (-53))) in Hn.
  destruct (Qle_bool _ _); [done|]. injection Hn as Hn.
  assert (r == inject_Z m * 2 ^ (-53)) as Hrm by (rewrite <- Hn at 1; apply Qred_correct).
  change (2 ^ (-53)) with (1 # 9007199254740992) in Hrm.
  assert (inject_Z m < inject_Z (2 ^ 53)) as Hm.
  { change (inject_Z (2 ^ 53)) with (9007199254740992 # 1). lra. }
  rewrite <- Zlt_Qlt in Hm.
  assert (inject_Z m <= inject_Z (2 ^ 53 - 1)) as Hm' by (rewrite <- Zle_Qle; lia).
  change (inject_Z (2 ^ 53 - 1)) with (9007199254740991 # 1) in Hm'. lra.
Qed.

(** [Math.floor(r * 8)] for a double [r] of the unit interval. *)
Lemma floor_of_eighths r :
  double r = Fin r -> 0 <= r -> r < 1 ->
  exists i, Math_floor (js_mul (Fin r) (num 8)) = num i /\ (0 <= i < 8)%Z.
Proof.
  intros Hd H0 H1. pose proof (double_below_one r Hd H1) as Hr.
  unfold js_mul, num.
  destruct (Qeq_dec r 0) as [Hz|Hz].
  - exists 0%Z. split; [|lia]. unfold double.
    assert (Qnum (r * inject_Z 8) = 0%Z) as ->; [|done].
    unfold Qeq in Hz. simpl in *. nia.
  - assert (0 < r * inject_Z 8) as Hq by (change (inject_Z 8) with 8; lra).
    assert (0 < Qnum (r * inject_Z 8))%Z as Hn by (unfold Qlt in Hq; simpl in *; lia).
    unfold double. destruct (Qnum (r * inject_Z 8)) as [|n|n] eqn:E; try lia.
    destruct (nearest_le (r * inject_Z 8) (inject_Z (2 ^ 53 - 1) * 2 ^ (-50))
                (2 ^ 53 - 1) (-50) Hq) as (v & Hv & Hle);
      [|reflexivity|lia|lia| |].
    + change (inject_Z 8) with 8.
      change (inject_Z (2 ^ 53 - 1) * 2 ^ (-50)) with
        ((9007199254740991 # 1) * (1 # 1125899906842624)).
      change (1 # 2 ^ 53) with (1 # 9007199254740992) in Hr. lra.
    + apply Qlt_le_trans with (2 ^ 3); [|apply pow2_le; lia]. change (2 ^ 3) with 8.
      change (inject_Z (2 ^ 53 - 1) * 2 ^ (-50)) with
        ((9007199254740991 # 1) * (1 # 1125899906842624)). lra.
    + rewrite Hv. exists (Qfloor v). split; [done|].
      assert (v < 8) as Hv8.
      { eapply Qle_lt_trans; [exact Hle|].
        change (inject_Z (2 ^ 53 - 1) * 2 ^ (-50)) with
          ((9007199254740991 # 1) * (1 # 1125899906842624)). lra. }
      assert (0 <= v) as Hv0.
      { unfold nearest in Hv. destruct (Qle_bool _ _); [done|]. injection Hv as <-.
        rewrite Qred_correct. apply Qmult_le_0_compat; [|apply Qlt_le_weak, pow2_pos].
        rewrite <- (Zle_Qle 0). apply round_half_even_ge.
        apply Qle_shift_div_l; [apply pow2_pos|]. change (inject_Z 0) with 0. lra. }
      split.
      * change 0%Z with (Qfloor 0). by apply Qfloor_resp_le.
      * rewrite Zlt_Qlt. eapply Qle_lt_trans; [apply Qfloor_le|]. exact Hv8.
Qed.

End DoubleProperties.

(** * Properties of the client *)

Section ClientProperties.
Import Client.
#[local] Open Scope js_scope.

Example guard_examples :
  accepted reading_at_100 = true /\
  accepted no_temperature = false /\
  accepted JNull = false /\
  accepted (JStr "25") = false /\
  accepted (obj [("temperature", JNull)]) = true.
Proof. repeat split; vm_compute; reflexivity. Qed.

Example shown_falls_back :
  let l := shown (obj [("temperature", JNum (num 0)); ("location", JNull)]) in
  temperature l = JNum (num 0) /\
  latitude l = JNum site_latitude /\
  windDirection l = JStr "Unknown".
Proof. repeat split; vm_compute; reflexivity. Qed.

Example calculateAQI_examples :
  calculateAQI (num 12) = "Good" /\
  calculateAQI (dec 121 10) = "Moderate" /\
  calculateAQI (Fin double_35_4) = "Moderate" /\
  calculateAQI (num 100) = "Unhealthy" /\
  calculateAQI (Fin double_150_4) = "Unhealthy" /\
  calculateAQI (Fin double_250_4) = "Very Unhealthy" /\
  calculateAQI (num 251) = "Hazardous" /\
  calculateAQI NaN = "Hazardous".
Proof. repeat split; vm_compute; reflexivity. Qed.

(** The thresholds are the doubles the literals [35.4], [55.4], [150.4] and
    [250.4] denote. *)
Example thresholds_are_the_nearest_doubles :
  double (354 # 10) = Fin double_35_4 /\
  double (554 # 10) = Fin double_55_4 /\
  double (1504 # 10) = Fin double_150_4 /\
  double (2504 # 10) = Fin double_250_4.
Proof. repeat split; vm_compute; reflexivity. Qed.

Lemma accepted_truthy data : accepted data = true -> truthy data = true.
Proof. unfold accepted. intros H. by apply andb_true_iff in H as [? _]. Qed.

Lemma update_accepted data st :
  accepted data = true ->
  updateLocationData data st =
  {| currentLocation := shown data; isLoading := isLoading st;
     error := error st; lastUpdate := Some (Date_new data.["timestamp"]);
     connectionStatus := connectionStatus st |}.
Proof. intros H. unfold updateLocationData. by rewrite H. Qed.

Lemma update_rejected data st :
  accepted data = false -> updateLocationData data st = st.
Proof. intros H. unfold updateLocationData. by rewrite H. Qed.

(** C1, as the specification states it, fails on the code: the view holds the
    reading taken at time 200 (pushed), the reading taken at time 100 arrives
    (by poll, or by push), and the view then shows the older reading. *)
Lemma merge_regresses_to_older_reading :
  let held := on_sensor_data reading_at_200 initial in
  lastUpdate held = Some (Date_new (ms 200)) /\
  temperature (currentLocation held) = JNum (num 30) /\
  reading_at_100.["timestamp"] = ms 100 /\
  100 <= 200 /\
  lastUpdate (fetchLatestData (Some reading_at_100) held) = Some (Date_new (ms 100)) /\
  temperature (currentLocation (fetchLatestData (Some reading_at_100) held)) = JNum (num 20) /\
  lastUpdate (on_sensor_data reading_at_100 held) = Some (Date_new (ms 100)) /\
  updateLocationData reading_at_100 held <> held.
Proof.
  cbv zeta. repeat split; try (vm_compute; reflexivity); try lia.
  intros H. apply (f_equal lastUpdate) in H. vm_compute in H. discriminate H.
Qed.

(** C1, amended: the merge is last-applied-wins.  A reading that passes the
    guard replaces the view whatever the view held: the view then shows that
    reading's fields and its timestamp, the other state is untouched, and
    nothing of an earlier reading survives. *)
Theorem merge_last_applied_wins (data : JsVal) (st : App) :
  accepted data = true ->
  let st' := updateLocationData data st in
  currentLocation st' = shown data /\
  lastUpdate st' = Some (Date_new data.["timestamp"]) /\
  isLoading st' = isLoading st /\
  error st' = error st /\
  connectionStatus st' = connectionStatus st /\
  (forall earlier, updateLocationData data (updateLocationData earlier st) = st').
Proof.
  intros Hacc st'. subst st'. rewrite (update_accepted _ _ Hacc).
  repeat split.
  intros earlier. rewrite (update_accepted _ _ Hacc).
  unfold updateLocationData. by destruct (accepted earlier).
Qed.

Lemma merge_last_applied_wins_witness :
  let st := updateLocationData reading_at_200 initial in
  let st' := updateLocationData reading_at_100 st in
  currentLocation st' = shown reading_at_100 /\
  lastUpdate st' = Some (Date_new reading_at_100.["timestamp"]) /\
  isLoading st' = isLoading st /\
  error st' = error st /\
  connectionStatus st' = connectionStatus st /\
  (forall earlier, updateLocationData reading_at_100 (updateLocationData earlier st) = st').
Proof.
  apply (merge_last_applied_wins reading_at_100
           (updateLocationData reading_at_200 initial)).
  vm_compute. reflexivity.
Defined.

(** C7: applying the same reading twice leaves the view as applying it once,
    for the merge itself, for the push listener and for a successful poll. *)
Theorem merge_idempotent (data : JsVal) (st : App) :
  updateLocationData data (updateLocationData data st) = updateLocationData data st /\
  on_sensor_data data (on_sensor_data data st) = on_sensor_data data st /\
  fetchLatestData (Some data) (fetchLatestData (Some data) st) =
    fetchLatestData (Some data) st.
Proof.
  unfold on_sensor_data, fetchLatestData, updateLocationData.
  destruct (accepted data); repeat split.
Qed.

(** C10: a value that is [null], [undefined], or without a defined
    [temperature] changes nothing: the merge, and the push listener, return
    the state they were given, and a poll that receives such a value leaves
    the view and the last-update time as they were. *)
Theorem malformed_input_dropped (data : JsVal) (st : App) :
  data = JNull \/ data = JUndefined \/ data.["temperature"] = JUndefined ->
  updateLocationData data st = st /\
  on_sensor_data data st = st /\
  currentLocation (fetchLatestData (Some data) st) = currentLocation st /\
  lastUpdate (fetchLatestData (Some data) st) = lastUpdate st.
Proof.
  intros H. unfold on_sensor_data, fetchLatestData.
  assert (accepted data = false) as Hrej.
  { unfold accepted. destruct H as [-> | [-> | ->]]; [done | done |].
    apply andb_false_r. }
  by rewrite !(update_rejected _ _ Hrej).
Qed.

Lemma malformed_input_dropped_witness :
  let st := updateLocationData reading_at_200 initial in
  updateLocationData no_temperature st = st /\
  on_sensor_data no_temperature st = st /\
  currentLocation (fetchLatestData (Some no_temperature) st) = currentLocation st /\
  lastUpdate (fetchLatestData (Some no_temperature) st) = lastUpdate st.
Proof.
  apply (malformed_input_dropped no_temperature). right. right.
  vm_compute. reflexivity.
Defined.

Lemma num_le_trans x y z :
  num_le x y = true -> num_le y z = true -> num_le x z = true.
Proof.
  destruct x as [| | |a], y as [| | |b], z as [| | |c]; simpl; try done.
  rewrite !Qle_bool_iff. apply Qle_trans.
Qed.

Lemma Qle_bool_false a b : Qle_bool a b = false <-> (b < a)%Q.
Proof.
  rewrite <- not_true_iff_false, Qle_bool_iff. split.
  - apply Qnot_le_lt.
  - apply Qlt_not_le.
Qed.

(** Unfolds the chain of comparisons of [calculateAQI] on [x], one case per
    outcome. *)
Ltac aqi_cases x :=
  repeat match goal with
  | |- context [if num_le x ?c then _ else _] => destruct (num_le x c) eqn:?
  end.

(** C9: [calculateAQI] answers every number with one of the six labels; on a
    finite value the label is the one of the interval cut out by the
    thresholds 12, 35.4, 55.4, 150.4 and 250.4, each threshold being the
    double its literal denotes (the decimal rounded to the nearest double: a
    53-bit binary fraction less than half a unit in the last place away
    from the decimal) and belonging to the lower interval; minus infinity is Good, plus infinity and [NaN] are Hazardous;
    and if [x <= y] then the label of [x] is at most as severe as that of
    [y]. *)
Theorem calculateAQI_total_and_monotone :
  (forall x, calculateAQI x ∈ labels) /\
  (forall q : Q,
     ((q <= 12)%Q -> calculateAQI (Fin q) = "Good") /\
     ((12 < q)%Q -> (q <= double_35_4)%Q -> calculateAQI (Fin q) = "Moderate") /\
     ((double_35_4 < q)%Q -> (q <= double_55_4)%Q ->
        calculateAQI (Fin q) = "Unhealthy for Sensitive Groups") /\
     ((double_55_4 < q)%Q -> (q <= double_150_4)%Q ->
        calculateAQI (Fin q) = "Unhealthy") /\
     ((double_150_4 < q)%Q -> (q <= double_250_4)%Q ->
        calculateAQI (Fin q) = "Very Unhealthy") /\
     ((double_250_4 < q)%Q -> calculateAQI (Fin q) = "Hazardous")) /\
  (double (354 # 10) = Fin double_35_4 /\
   double (554 # 10) = Fin double_55_4 /\
   double (1504 # 10) = Fin double_150_4 /\
   double (2504 # 10) = Fin double_250_4 /\
   double_35_4 = 4982107087778611 # (2 ^ 47)%positive /\
   (Qabs (double_35_4 - (354 # 10)) < 1 # (2 ^ 48)%positive)%Q /\
   double_55_4 = 7796856854885171 # (2 ^ 47)%positive /\
   (Qabs (double_55_4 - (554 # 10)) < 1 # (2 ^ 48)%positive)%Q /\
   double_150_4 = 5291729562160333 # (2 ^ 45)%positive /\
   (Qabs (double_150_4 - (1504 # 10)) < 1 # (2 ^ 46)%positive)%Q /\
   double_250_4 = 8810166771043533 # (2 ^ 45)%positive /\
   (Qabs (double_250_4 - (2504 # 10)) < 1 # (2 ^ 46)%positive)%Q /\
   8810166771043533 < 2 ^ 53) /\
  calculateAQI NInf = "Good" /\
  calculateAQI PInf = "Hazardous" /\
  calculateAQI NaN = "Hazardous" /\
  (forall x y, num_le x y = true ->
     (severity (calculateAQI x) <= severity (calculateAQI y))%nat).
Proof.
  split; [| split; [| split; [|repeat split]]].
  - intros x. unfold calculateAQI, labels. aqi_cases x; set_solver.
  - intros q. unfold calculateAQI, num_le, num.
    repeat match goal with
    | |- context [Qle_bool q ?c] =>
        let E := fresh in
        destruct (Qle_bool q c) eqn:E;
        [apply Qle_bool_iff in E | apply Qle_bool_false in E]
    end;
    unfold inject_Z, double_35_4, double_55_4, double_150_4, double_250_4 in *;
    repeat split; intros; first [reflexivity | lra].
  - repeat split; vm_compute; reflexivity.
  - intros x y Hxy.
    pose proof (fun c => num_le_trans x y c Hxy) as T.
    unfold calculateAQI. aqi_cases y; aqi_cases x;
      try (vm_compute; lia);
      exfalso;
      repeat match goal with
      | Hy : num_le y ?c = true, Hx : num_le x ?c = false |- _ =>
          rewrite (T c Hy) in Hx; discriminate Hx
      end.
Qed.

End ClientProperties.

(** * Properties of the backend *)

Section ServerProperties.
Import Server.

Example parseInt_examples :
  parseInt (Some "2") = num 2 /\
  parseInt (Some "  12px") = num 12 /\
  parseInt (Some "-3") = num (-3) /\
  parseInt (Some "0x1F") = num 31 /\
  parseInt (Some "1.5") = num 1 /\
  parseInt (Some "abc") = NaN /\
  parseInt (Some "") = NaN /\
  parseInt None = NaN /\
  parseInt (Some "9007199254740993") = num 9007199254740992 /\
  parseInt (Some (string_of_list_ascii (replicate 310 "9"%char))) = PInf.
Proof. repeat split; vm_compute; reflexivity. Qed.

Example or_default_examples :
  or_default (parseInt (Some "abc")) (num 1) = num 1 /\
  or_default (parseInt (Some "0")) (num 50) = num 50 /\
  or_default (parseInt (Some "7")) (num 50) = num 7.
Proof. repeat split; vm_compute; reflexivity. Qed.

(** The end-to-end scenario: the device posts, the answer is the success
    message, both viewers are sent the document, and [GET /api/latest] then
    answers with the reading, stamped with the time of the post. *)
Example post_then_latest :
  db one_reading = [full_body_stored] /\
  responses (trace one_reading) = [(200, JsonSuccess "Data saved successfully")] /\
  map (fun e => fst (fst e)) (emissions (trace one_reading)) = [7; 9]%nat /\
  responses (events get_api_latest one_reading) = [(200, JsonReading full_body_stored)] /\
  responses (events get_api_latest empty_world) =
    [(200, JsonDefault (default_data 1000))].
Proof. repeat split; vm_compute; reflexivity. Qed.

(** ** The descending sort *)

Lemma key_le_total a b : key_le a b = true \/ key_le b a = true.
Proof. destruct a, b; simpl; auto. lia. Qed.

Lemma key_le_trans a b c :
  key_le a b = true -> key_le b c = true -> key_le a c = true.
Proof. destruct a, b, c; simpl; try done. lia. Qed.

#[local] Instance newer_first_total : Total newer_first.
Proof. intros a b. unfold newer_first. destruct (key_le_total (ts a) (ts b)); auto. Qed.

#[local] Instance newer_first_trans : Transitive newer_first.
Proof. intros a b c Hab Hbc. unfold newer_first in *. by eapply key_le_trans. Qed.

Lemma sort_desc_perm l : sort_desc l ≡ₚ l.
Proof. apply merge_sort_Permutation. Qed.

Lemma sort_desc_sorted l : StronglySorted newer_first (sort_desc l).
Proof. apply StronglySorted_merge_sort; apply _. Qed.

Lemma sort_desc_elem d l : d ∈ sort_desc l <-> d ∈ l.
Proof. by rewrite sort_desc_perm. Qed.

Lemma sort_desc_length l : length (sort_desc l) = length l.
Proof. by rewrite sort_desc_perm. Qed.

Lemma sort_desc_nil_inv l : sort_desc l = [] -> l = [].
Proof.
  intros H. apply Permutation_nil_r. rewrite <- H. symmetry. apply sort_desc_perm.
Qed.

(** The head of a sorted list bounds every element. *)
Lemma sort_desc_head d l :
  head (sort_desc l) = Some d ->
  d ∈ l /\ forall d', d' ∈ l -> key_le (ts d') (ts d) = true.
Proof.
  intros Hhd. pose proof (sort_desc_sorted l) as Hs.
  destruct (sort_desc l) as [|x xs] eqn:E; [done|]. injection Hhd as ->.
  assert (forall d', d' ∈ l <-> d' ∈ d :: xs) as Hin.
  { intros d'. by rewrite <- E, sort_desc_elem. }
  split; [apply Hin; left|].
  intros d' Hd'. apply Hin in Hd'. apply StronglySorted_inv in Hs as [_ Hall].
  apply elem_of_cons in Hd' as [-> | Hd'].
  - destruct (key_le_total (ts d) (ts d)); done.
  - rewrite Forall_forall in Hall. by apply Hall.
Qed.

(** ** Running the handlers *)

Lemma events_app (h : M unit) w evs :
  trace (run h w) = trace w ++ evs -> events h w = evs.
Proof. intros H. unfold events. rewrite H. apply drop_app_length. Qed.

(** The two ways [POST /api/arduino] can go. *)
Lemma ingest_outcome body w :
  let doc := {| doc_id := next_id w; paths := apply_defaults (clock w) body |} in
  let w' := run (post_api_arduino body) w in
  let evs := events (post_api_arduino body) w in
  (exists d, stored doc = Some d /\ connected w = true /\
     db w' = db w ++ [d] /\ evs = ingest_success doc d (sockets w)) \/
  ((stored doc = None \/ connected w = false) /\
     db w' = db w /\ evs = ingest_failure).
Proof.
  intros doc w' evs. subst w' evs.
  unfold post_api_arduino, run, try_catch, new_SensorData, save, bind,
    new_ObjectId, Date_now, ret. simpl. fold doc.
  destruct (stored doc) as [d|] eqn:Hd.
  - unfold bind, get. simpl. destruct (connected w) eqn:Hc.
    + left. exists d. repeat split; try done.
      apply events_app. unfold run, post_api_arduino, try_catch, new_SensorData,
        save, bind, new_ObjectId, Date_now, ret. simpl. fold doc. rewrite Hd.
      unfold bind, get. simpl. rewrite Hc. simpl.
      unfold ingest_success. by rewrite <- !app_assoc.
    + right. split; [by right|]. split; [done|].
      apply events_app. unfold run, post_api_arduino, try_catch, new_SensorData,
        save, bind, new_ObjectId, Date_now, ret. simpl. fold doc. rewrite Hd.
      unfold bind, get. simpl. rewrite Hc. simpl.
      by rewrite <- !app_assoc.
  - right. split; [by left|]. split; [done|].
    apply events_app. unfold run, post_api_arduino, try_catch, new_SensorData,
      save, bind, new_ObjectId, Date_now, ret. simpl. fold doc. rewrite Hd.
    simpl. by rewrite <- !app_assoc.
Qed.

Lemma validate_fields now body r :
  validate (apply_defaults now body) = Some r ->
  temperature body = Value (temperature r) /\
  humidity body = Value (humidity r) /\
  vocIndex body = Value (vocIndex r) /\
  vocRaw body = Value (vocRaw r) /\
  pm1 body = Value (pm1 r) /\
  pm25 body = Value (pm25 r) /\
  pm10 body = Value (pm10 r) /\
  rainfall body = Value (rainfall r) /\
  windSpeed body = Value (windSpeed r) /\
  windDirection body = Value (windDirection r) /\
  optional (with_default default_latitude (location_latitude body)) =
    Some (location_latitude r) /\
  optional (with_default default_longitude (location_longitude body)) =
    Some (location_longitude r) /\
  optional (with_default now (timestamp body)) = Some (timestamp r).
Proof.
  destruct body; unfold validate;
    cbn [temperature humidity vocIndex vocRaw pm1 pm25 pm10 rainfall windSpeed
         windDirection location_latitude location_longitude timestamp
         apply_defaults].
  intros H.
  repeat match type of H with
  | context [required ?g] =>
      is_var g; destruct g; cbn [required mbind option_bind] in H;
      [discriminate H ..|]
  end.
  match type of H with
  | context [required_string ?g] =>
      destruct g as [| | |s]; cbn [required_string mbind option_bind] in H;
      [discriminate H ..|];
      destruct (String.eqb s ""); cbn [mbind option_bind] in H;
      [discriminate H|]
  end.
  repeat match type of H with
  | context [optional ?g ≫= _] =>
      destruct (optional g); cbn [mbind option_bind] in H; [|discriminate H]
  end.
  injection H as <-. cbn. by repeat split.
Qed.

Lemma missing_fails_validation now body :
  Exists (fun g => g = Absent) (numeric_paths body) ->
  validate (apply_defaults now body) = None.
Proof.
  intros Hmiss.
  destruct (validate (apply_defaults now body)) as [r|] eqn:Hv; [|done].
  destruct (validate_fields _ _ _ Hv) as (?&?&?&?&?&?&?&?&?&_).
  unfold numeric_paths in Hmiss.
  repeat (apply Exists_cons in Hmiss as [Hmiss | Hmiss]; [congruence|]).
  by apply Exists_nil in Hmiss.
Qed.

(** C2: a payload that lacks one of the required numeric fields is refused as
    a whole: the endpoint answers with its error, the collection is what it
    was (same documents, same count), nothing is inserted and nothing is
    emitted to any client. *)
Theorem rejected_ingest_is_atomic (body : Payload) (w : World) :
  Exists (fun g => g = Absent) (numeric_paths body) ->
  let w' := run (post_api_arduino body) w in
  let evs := events (post_api_arduino body) w in
  responses evs = [(500, JsonError "Failed to save sensor data")] /\
  db w' = db w /\
  length (db w') = length (db w) /\
  insertions evs = [] /\
  emissions evs = [].
Proof.
  intros Hmiss w' evs.
  destruct (ingest_outcome body w) as [(d & Hd & _) | (_ & Hdb & Hevs)].
  - unfold stored in Hd. simpl in Hd.
    by rewrite (missing_fails_validation _ _ Hmiss) in Hd.
  - subst w' evs. rewrite Hdb, Hevs. by repeat split.
Qed.

Lemma rejected_ingest_is_atomic_witness :
  let w' := run (post_api_arduino without_humidity) one_reading in
  let evs := events (post_api_arduino without_humidity) one_reading in
  responses evs = [(500, JsonError "Failed to save sensor data")] /\
  db w' = db one_reading /\
  length (db w') = length (db one_reading) /\
  insertions evs = [] /\
  emissions evs = [].
Proof.
  apply (rejected_ingest_is_atomic without_humidity one_reading).
  unfold numeric_paths, without_humidity. simpl.
  apply Exists_cons_tl, Exists_cons_hd. reflexivity.
Defined.

(** C3: in every run of the ingest handler, each delivery to a client comes
    after the insertion of the very document it carries, which is then in the
    collection, and the success answer comes after an insertion too; a run
    whose write did not happen emits nothing and answers with the error. *)
Theorem broadcast_follows_persist (body : Payload) (w : World) :
  forall pre e post,
  events (post_api_arduino body) w = pre ++ e :: post ->
  match e with
  | Emitted _ name doc =>
      name = "sensor-data" /\
      exists d, stored doc = Some d /\ Inserted d ∈ pre /\
                d ∈ db (run (post_api_arduino body) w)
  | Responded status _ =>
      status = 200 ->
      exists d, Inserted d ∈ pre /\ d ∈ db (run (post_api_arduino body) w)
  | _ => True
  end.
Proof.
  intros pre e post Hsplit.
  destruct (ingest_outcome body w) as [(d & Hd & _ & Hdb & Hevs) | (_ & _ & Hevs)];
    rewrite Hevs in Hsplit; clear Hevs.
  - unfold ingest_success in Hsplit. rewrite Hdb.
    destruct pre as [|e0 pre]; simpl in Hsplit; injection Hsplit as <- Hrest.
    { done. }
    assert (e ∈ map (fun s => Emitted s "sensor-data"
                      {| doc_id := next_id w; paths := apply_defaults (clock w) body |})
                  (sockets w) ++
                [Logged "New sensor data received and saved:";
                 Responded 200 (JsonSuccess "Data saved successfully")]) as He.
    { rewrite Hrest. apply elem_of_app. right. apply elem_of_cons. by left. }
    assert (Inserted d ∈ Inserted d :: pre) as Hpre by (apply elem_of_cons; by left).
    assert (d ∈ db w ++ [d]) as Hin
      by (apply elem_of_app; right; by apply list_elem_of_singleton).
    apply elem_of_app in He as [He | He].
    + apply list_elem_of_fmap in He as (s & -> & _). split; [done|]. by exists d.
    + apply elem_of_cons in He as [-> | He]; [done|].
      apply list_elem_of_singleton in He as ->. intros _. by exists d.
  - unfold ingest_failure in Hsplit.
    assert (e ∈ [Logged "Error saving sensor data:";
                 Responded 500 (JsonError "Failed to save sensor data")]) as He.
    { rewrite Hsplit. apply elem_of_app. right. apply elem_of_cons. by left. }
    apply elem_of_cons in He as [-> | He]; [done|].
    apply list_elem_of_singleton in He as ->. done.
Qed.

Lemma broadcast_follows_persist_witness :
  exists d, stored {| doc_id := 0%nat; paths := apply_defaults 1000 full_body |} = Some d /\
            Inserted d ∈ [Inserted d] /\
            d ∈ db (run (post_api_arduino full_body) empty_world).
Proof.
  pose proof (broadcast_follows_persist full_body empty_world) as H.
  specialize (H (take 1 (events (post_api_arduino full_body) empty_world))
                (Emitted 7%nat "sensor-data"
                   {| doc_id := 0%nat; paths := apply_defaults 1000 full_body |})
                (drop 2 (events (post_api_arduino full_body) empty_world))).
  destruct H as [_ (d & Hd & Hin & Hdb)].
  - vm_compute. reflexivity.
  - exists d. split; [exact Hd|]. split; [|exact Hdb].
    vm_compute in Hd. injection Hd as <-. vm_compute. left.
Defined.

(** C8: a payload the ingest stores is stored with the values it gave for the
    ten required fields; if it gave no timestamp the stored reading carries
    the time of the ingest, otherwise the timestamp given; if it gave no
    location the stored reading carries the site coordinate
    (6.791164, 79.900497), otherwise the coordinate given. *)
Theorem stored_reading_as_given (body : Payload) (w : World) (d : StoredReading) :
  Inserted d ∈ events (post_api_arduino body) w ->
  let r := fields d in
  (temperature body = Value (temperature r) /\
   humidity body = Value (humidity r) /\
   vocIndex body = Value (vocIndex r) /\
   vocRaw body = Value (vocRaw r) /\
   pm1 body = Value (pm1 r) /\
   pm25 body = Value (pm25 r) /\
   pm10 body = Value (pm10 r) /\
   rainfall body = Value (rainfall r) /\
   windSpeed body = Value (windSpeed r) /\
   windDirection body = Value (windDirection r)) /\
  (timestamp body = Absent -> timestamp r = Some (clock w)) /\
  (forall t, timestamp body = Value t -> timestamp r = Some t) /\
  (location_latitude body = Absent -> location_longitude body = Absent ->
     location_latitude r = Some (dec 6791164 1000000) /\
     location_longitude r = Some (dec 79900497 1000000)) /\
  (forall x, location_latitude body = Value x -> location_latitude r = Some x) /\
  (forall y, location_longitude body = Value y -> location_longitude r = Some y) /\
  db (run (post_api_arduino body) w) = db w ++ [d].
Proof.
  intros Hin r.
  destruct (ingest_outcome body w) as [(d' & Hd & _ & Hdb & Hevs) | (_ & _ & Hevs)];
    rewrite Hevs in Hin; clear Hevs.
  - assert (d' = d) as ->.
    { unfold ingest_success in Hin.
      apply elem_of_cons in Hin as [[= ->] | Hin]; [done|].
      apply elem_of_app in Hin as [Hin | Hin].
      - by apply list_elem_of_fmap in Hin as (? & ? & _).
      - apply elem_of_cons in Hin as [? | Hin]; [done|].
        by apply list_elem_of_singleton in Hin. }
    unfold stored in Hd. simpl in Hd.
    destruct (validate (apply_defaults (clock w) body)) as [r'|] eqn:Hv; [|done].
    injection Hd as <-. simpl in r. subst r.
    destruct (validate_fields _ _ _ Hv)
      as (?&?&?&?&?&?&?&?&?&?& Hlat & Hlon & Hts).
    split; [by repeat split|].
    split; [|split; [|split; [|split; [|split]]]]; [| | | | |done].
    + intros E. rewrite E in Hts. simpl in Hts. congruence.
    + intros t E. rewrite E in Hts. simpl in Hts. congruence.
    + intros Elat Elon. rewrite Elat in Hlat. rewrite Elon in Hlon.
      simpl in Hlat, Hlon. unfold default_latitude in Hlat.
      unfold default_longitude in Hlon. split; congruence.
    + intros x E. rewrite E in Hlat. simpl in Hlat. congruence.
    + intros y E. rewrite E in Hlon. simpl in Hlon. congruence.
  - unfold ingest_failure in Hin.
    apply elem_of_cons in Hin as [? | Hin]; [done|].
    by apply list_elem_of_singleton in Hin.
Qed.

Lemma stored_reading_as_given_witness :
  let r := fields full_body_stored in
  (temperature full_body = Value (temperature r) /\
   humidity full_body = Value (humidity r) /\
   vocIndex full_body = Value (vocIndex r) /\
   vocRaw full_body = Value (vocRaw r) /\
   pm1 full_body = Value (pm1 r) /\
   pm25 full_body = Value (pm25 r) /\
   pm10 full_body = Value (pm10 r) /\
   rainfall full_body = Value (rainfall r) /\
   windSpeed full_body = Value (windSpeed r) /\
   windDirection full_body = Value (windDirection r)) /\
  (timestamp full_body = Absent -> timestamp r = Some (clock empty_world)) /\
  (forall t, timestamp full_body = Value t -> timestamp r = Some t) /\
  (location_latitude full_body = Absent -> location_longitude full_body = Absent ->
     location_latitude r = Some (dec 6791164 1000000) /\
     location_longitude r = Some (dec 79900497 1000000)) /\
  (forall x, location_latitude full_body = Value x -> location_latitude r = Some x) /\
  (forall y, location_longitude full_body = Value y -> location_longitude r = Some y) /\
  db (run (post_api_arduino full_body) empty_world) = db empty_world ++ [full_body_stored].
Proof.
  apply (stored_reading_as_given full_body empty_world full_body_stored).
  vm_compute. left.
Defined.

(** ** The queries *)

Lemma latest_outcome w :
  connected w = true ->
  events get_api_latest w =
    [Responded 200
       match head (sort_desc (db w)) with
       | Some d => JsonReading d
       | None => JsonDefault (default_data (clock w))
       end] /\
  fst (findOne_sort w) = Ok (head (sort_desc (db w))) /\
  db (run get_api_latest w) = db w.
Proof.
  intros Hc. split; [|split].
  - apply events_app.
    unfold run, get_api_latest, try_catch, bind, findOne_sort, exec.
    rewrite Hc. simpl. by destruct (head (sort_desc (db w))).
  - unfold findOne_sort, exec. by rewrite Hc.
  - unfold run, get_api_latest, try_catch, bind, findOne_sort, exec.
    rewrite Hc. simpl. by destruct (head (sort_desc (db w))).
Qed.

(** C4: with the store reachable, the latest-reading query answers with a
    stored reading whose timestamp no stored reading exceeds, and the
    endpoint sends that reading; on an empty store the query answers with
    nothing and the endpoint sends the placeholder reading instead:
    temperature 25, humidity 60, VOC index 100, raw VOC 25000, PM1 5, PM2.5
    10, PM10 15, no rain, wind 2.5 from the north, at the site coordinate
    (6.791164, 79.900497), stamped with the current time. *)
Theorem latest_reading_is_newest (w : World) :
  connected w = true ->
  let evs := events get_api_latest w in
  (db w = [] ->
     fst (findOne_sort w) = Ok None /\
     responses evs =
       [(200, JsonDefault {|
                temperature := Fin (25 # 1);
                humidity := Fin (60 # 1);
                vocIndex := Fin (100 # 1);
                vocRaw := Fin (25000 # 1);
                pm1 := Fin (5 # 1);
                pm25 := Fin (10 # 1);
                pm10 := Fin (15 # 1);
                rainfall := Fin (0 # 1);
                windSpeed := Fin (25 # 10);
                windDirection := "N";
                location_latitude := Some (Fin (6791164 # 1000000));
                location_longitude := Some (Fin (79900497 # 1000000));
                timestamp := Some (clock w)
              |})]) /\
  (db w <> [] ->
     exists d, fst (findOne_sort w) = Ok (Some d) /\
               d ∈ db w /\
               (forall d', d' ∈ db w -> key_le (ts d') (ts d) = true) /\
               responses evs = [(200, JsonReading d)]) /\
  db (run get_api_latest w) = db w.
Proof.
  intros Hc evs. subst evs.
  destruct (latest_outcome w Hc) as (-> & -> & Hdb).
  split; [|split; [|done]].
  - intros ->. done.
  - intros Hne. destruct (head (sort_desc (db w))) as [d|] eqn:Hhd.
    + exists d. destruct (sort_desc_head _ _ Hhd). done.
    + exfalso. apply Hne, sort_desc_nil_inv. by apply head_None.
Qed.

Lemma latest_reading_is_newest_witness :
  (exists d, fst (findOne_sort three_readings) = Ok (Some d) /\
             d ∈ db three_readings /\
             (forall d', d' ∈ db three_readings -> key_le (ts d') (ts d) = true) /\
             responses (events get_api_latest three_readings) =
               [(200, JsonReading d)]) /\
  responses (events get_api_latest empty_world) =
    [(200, JsonDefault {|
             temperature := Fin (25 # 1);
             humidity := Fin (60 # 1);
             vocIndex := Fin (100 # 1);
             vocRaw := Fin (25000 # 1);
             pm1 := Fin (5 # 1);
             pm25 := Fin (10 # 1);
             pm10 := Fin (15 # 1);
             rainfall := Fin (0 # 1);
             windSpeed := Fin (25 # 10);
             windDirection := "N";
             location_latitude := Some (Fin (6791164 # 1000000));
             location_longitude := Some (Fin (79900497 # 1000000));
             timestamp := Some 1000
           |})].
Proof.
  split.
  - apply (latest_reading_is_newest three_readings); [vm_compute; reflexivity|].
    vm_compute. discriminate.
  - apply (latest_reading_is_newest empty_world); reflexivity.
Defined.

Lemma range_missing startDate endDate w :
  falsy_param startDate || falsy_param endDate = true ->
  events (get_api_data_range startDate endDate) w =
    [Responded 400 (JsonError "Start date and end date are required")] /\
  db (run (get_api_data_range startDate endDate) w) = db w.
Proof.
  intros H. split; [apply events_app|];
    unfold run, get_api_data_range, try_catch; by rewrite H.
Qed.

Lemma range_given startDate endDate w :
  falsy_param startDate || falsy_param endDate = false ->
  events (get_api_data_range startDate endDate) w =
    match new_Date startDate, new_Date endDate with
    | Some s, Some e =>
        if connected w
        then [Responded 200
                (JsonList (sort_desc (filter (fun d => in_range s e d = true) (db w))))]
        else range_failure
    | _, _ => range_failure
    end /\
  db (run (get_api_data_range startDate endDate) w) = db w.
Proof.
  intros H. split; [apply events_app|];
    unfold run, get_api_data_range, try_catch, find_range_sort, bind, exec;
    rewrite H;
    destruct (new_Date startDate), (new_Date endDate); simpl;
    try destruct (connected w); simpl; by rewrite <- ?app_assoc.
Qed.

Lemma in_range_spec s e d :
  in_range s e d = true <-> exists t, ts d = Some t /\ s <= t <= e.
Proof.
  unfold in_range. destruct (ts d) as [t|].
  - rewrite andb_true_iff, !Z.leb_le. split.
    + intros ?. by exists t.
    + by intros (? & [= <-] & ?).
  - split; [done|]. by intros (? & ? & _).
Qed.

(** C5, as the specification states it, fails on the code: a bound that is
    given but is not a date is answered with the status 500, which is not in
    the 400 class. *)
Lemma unparsable_bound_is_server_error :
  responses (events (get_api_data_range NotADate (Instant 5000)) one_reading) =
    [(500, JsonError "Failed to fetch sensor data")] /\
  responses (events (get_api_data_range (Instant 0) NotADate) one_reading) =
    [(500, JsonError "Failed to fetch sensor data")] /\
  ~ (400 <= 500 < 500).
Proof. repeat split; try (vm_compute; reflexivity). lia. Qed.

(** C5, amended: the range query answers 400 when a bound is absent (or
    empty); when both are given and one is not a date it fails with the
    server error 500; when both are dates and the store is reachable it
    answers with exactly the stored readings whose timestamp lies between the
    bounds, both included, newest first.  It never changes the store. *)
Theorem range_query_outcomes (startDate endDate : DateParam) (w : World) :
  let evs := events (get_api_data_range startDate endDate) w in
  (startDate = NotGiven \/ endDate = NotGiven ->
     responses evs = [(400, JsonError "Start date and end date are required")]) /\
  (startDate <> NotGiven -> endDate <> NotGiven ->
   startDate = NotADate \/ endDate = NotADate ->
     responses evs = [(500, JsonError "Failed to fetch sensor data")]) /\
  (forall s e, startDate = Instant s -> endDate = Instant e ->
   connected w = true ->
     exists data,
       responses evs = [(200, JsonList data)] /\
       data ≡ₚ filter (fun d => in_range s e d = true) (db w) /\
       (forall d, d ∈ data <-> d ∈ db w /\ exists t, ts d = Some t /\ s <= t <= e) /\
       StronglySorted newer_first data) /\
  db (run (get_api_data_range startDate endDate) w) = db w.
Proof.
  intros evs. subst evs. repeat split.
  - intros H.
    assert (falsy_param startDate || falsy_param endDate = true) as Hf.
    { destruct H as [-> | ->]; [done | apply orb_true_r]. }
    by destruct (range_missing _ _ w Hf) as [-> _].
  - intros Hs He H.
    assert (falsy_param startDate || falsy_param endDate = false) as Hf.
    { by destruct startDate, endDate. }
    destruct (range_given _ _ w Hf) as [-> _].
    destruct H as [-> | ->]; [done|]. by destruct (new_Date startDate).
  - intros s e -> -> Hc.
    destruct (range_given (Instant s) (Instant e) w eq_refl) as [-> _].
    simpl. rewrite Hc.
    exists (sort_desc (filter (fun d => in_range s e d = true) (db w))).
    split; [done|]. split; [apply sort_desc_perm|]. split; [|apply sort_desc_sorted].
    intros d. by rewrite sort_desc_elem, list_elem_of_filter, in_range_spec, (comm and).
  - destruct (falsy_param startDate || falsy_param endDate) eqn:Hf.
    + by destruct (range_missing _ _ w Hf).
    + by destruct (range_given _ _ w Hf).
Qed.

Lemma range_query_outcomes_witness :
  exists data,
    responses (events (get_api_data_range (Instant 1500) (Instant 2500)) three_readings) =
      [(200, JsonList data)] /\
    map ts data = [Some 2000].
Proof.
  destruct (range_query_outcomes (Instant 1500) (Instant 2500) three_readings)
    as (_ & _ & Hok & _).
  destruct (Hok 1500 2500 eq_refl eq_refl) as (data & Hres & _).
  { vm_compute. reflexivity. }
  exists data. split; [exact Hres|].
  vm_compute in Hres. injection Hres as <-. vm_compute. reflexivity.
Defined.

(** ** Pagination *)

Lemma key_le_antisym a b : key_le a b = true -> key_le b a = true -> a = b.
Proof. destruct a, b; simpl; try done. intros. f_equal. lia. Qed.

#[local] Instance listed_before_total rank : Total (listed_before rank).
Proof.
  intros a b. unfold listed_before.
  destruct (decide (ts a = ts b)) as [E|E].
  - rewrite decide_True by done. lia.
  - rewrite decide_False by done. apply newer_first_total.
Qed.

#[local] Instance listed_before_trans rank : Transitive (listed_before rank).
Proof.
  intros a b c Hab Hbc. unfold listed_before, newer_first in *.
  repeat case_decide; try lia; try congruence.
  - exfalso. apply H. rewrite H1 in Hab. by apply key_le_antisym.
  - by eapply key_le_trans.
Qed.

Lemma listed_before_newer rank a b : listed_before rank a b -> newer_first a b.
Proof.
  unfold listed_before, newer_first. destruct (decide (ts a = ts b)) as [->|]; [|done].
  intros _. by destruct (key_le_total (ts b) (ts b)).
Qed.

Lemma sort_desc_by_perm rank l : sort_desc_by rank l ≡ₚ l.
Proof. apply merge_sort_Permutation. Qed.

Lemma sort_desc_by_sorted rank l : StronglySorted newer_first (sort_desc_by rank l).
Proof.
  assert (StronglySorted (listed_before rank) (sort_desc_by rank l)) as H
    by (apply StronglySorted_merge_sort; apply _).
  induction H as [|x xs _ IH Hx]; constructor; [done|].
  eapply Forall_impl; [exact Hx|]. intros y. apply listed_before_newer.
Qed.

(** With no two readings of the same timestamp there is one descending
    order. *)
Lemma sort_desc_by_unique rank l :
  (forall x y, x ∈ l -> y ∈ l -> ts x = ts y -> x = y) ->
  sort_desc_by rank l = sort_desc l.
Proof.
  intros Hinj.
  apply (StronglySorted_unique_strong newer_first).
  - intros x y Hx Hy Hxy Hyx. rewrite sort_desc_by_perm in Hx.
    rewrite sort_desc_perm in Hy.
    apply Hinj; [done..|]. by apply key_le_antisym.
  - apply sort_desc_by_sorted.
  - apply sort_desc_sorted.
  - by rewrite sort_desc_by_perm, sort_desc_perm.
Qed.

Lemma after_drop {A} n (l : list A) :
  0 <= n -> after n l = drop (Z.to_nat n) l.
Proof.
  intros Hn. unfold after. destruct (Z.leb_spec (Z.of_nat (length l)) n); [|done].
  symmetry. apply drop_ge. lia.
Qed.

Lemma at_most_take {A} n (l : list A) :
  0 <= n -> at_most n l = take (Z.to_nat n) l.
Proof.
  intros Hn. unfold at_most. destruct (Z.leb_spec (Z.of_nat (length l)) n); [|done].
  symmetry. apply take_ge. lia.
Qed.

Lemma safe_long_num n : - 2 ^ 63 <= n < 2 ^ 63 -> safe_long (num n) = n.
Proof. intros Hn. unfold safe_long, num. simpl. rewrite Z.quot_1_r. lia. Qed.

Lemma js_sub_num a b : Z.abs (a - b) <= 2 ^ 53 -> js_sub (num a) (num b) = num (a - b).
Proof.
  intros H. unfold js_sub, num. apply double_integer; [|done].
  unfold Z.sub. rewrite inject_Z_plus, inject_Z_opp. reflexivity.
Qed.

Lemma js_mul_num a b : Z.abs (a * b) <= 2 ^ 53 -> js_mul (num a) (num b) = num (a * b).
Proof.
  intros H. unfold js_mul, num. apply double_integer; [|done].
  by rewrite inject_Z_mult.
Qed.


(** The answer to a page within the safe integers, with the store
    reachable. *)
Lemma page_outcome q_page q_limit w P L :
  let page := or_default (parseInt q_page) (num 1) in
  let limit := or_default (parseInt q_limit) (num 50) in
  let total := Z.of_nat (length (db w)) in
  connected w = true -> page = num P -> limit = num L ->
  1 <= P -> 1 <= L -> P * L <= 2 ^ 53 -> total < 2 ^ 53 ->
  events (get_api_data q_page q_limit) w =
    [Responded 200
       (JsonPage
          (take (Z.to_nat L)
             (drop (Z.to_nat ((P - 1) * L))
                (sort_desc_by (tie_break w (trace w) (num ((P - 1) * L)) (num L))
                   (db w))))
          page limit (num total) (num (ceil_div total L)))].
Proof.
  intros page limit total Hc HP HL Hp Hl Hsafe Ht.
  assert (js_mul (js_sub page (num 1)) limit = num ((P - 1) * L)) as Hskip.
  { rewrite HP, HL, js_sub_num by nia. apply js_mul_num. nia. }
  assert (safe_long (num ((P - 1) * L)) = (P - 1) * L) as Hs
    by (apply safe_long_num; nia).
  assert (safe_long (num L) = L) as Hlim by (apply safe_long_num; nia).
  assert (double (inject_Z total) = num total) as Htot
    by (apply double_integer; [reflexivity|lia]).
  assert (Math_ceil (js_div (num total) (num L)) = num (ceil_div total L)) as Hceil
    by (apply ceil_of_quotient; lia).
  apply events_app.
  unfold run, get_api_data, try_catch, find_sort_skip_limit,
    countDocuments, exec, get, bind.
  fold page limit. rewrite Hskip, HL. cbv beta iota. rewrite Hc, Hs, Hlim.
  assert (((P - 1) * L <? 0) = false) as -> by (apply Z.ltb_ge; nia).
  assert ((L =? 0) = false) as -> by (apply Z.eqb_neq; lia).
  assert ((L <? 0) = false) as -> by (apply Z.ltb_ge; lia).
  rewrite after_drop, at_most_take by nia.
  cbv beta iota. fold total. rewrite Htot, Hc. cbv beta iota. rewrite Hceil.
  reflexivity.
Qed.

Lemma page_unchanged q_page q_limit w :
  db (run (get_api_data q_page q_limit) w) = db w.
Proof.
  unfold run, get_api_data, try_catch, find_sort_skip_limit,
    countDocuments, exec, get, bind, res_json, res_status_json,
    console_error, record.
  destruct (connected w) eqn:Hc; [|done].
  cbv beta iota.
  destruct (safe_long _ <? 0); cbv beta iota; rewrite ?Hc; reflexivity.
Qed.

(** Cutting a list into [n] slices of [k] elements loses nothing when [n]
    slices are enough. *)
Lemma slices_concat {A} (k n : nat) (l : list A) :
  (length l <= n * k)%nat ->
  mjoin (map (fun i => take k (drop (i * k) l)) (seq 0 n)) = l.
Proof.
  revert l. induction n as [|n IH]; intros l Hlen.
  - simpl in *. destruct l; [done | simpl in Hlen; lia].
  - cbn [seq map mjoin list_join]. rewrite <- seq_shift, map_map.
    rewrite drop_0.
    rewrite <- (take_drop k l) at 2. f_equal.
    rewrite <- (IH (drop k l)) at 1 by (rewrite length_drop; lia).
    f_equal. apply map_ext. intros i. by rewrite drop_drop.
Qed.

Lemma ceil_div_covers total limit :
  1 <= limit -> 0 <= total ->
  0 <= ceil_div total limit /\ total <= ceil_div total limit * limit /\
  ceil_div total limit * limit < total + limit.
Proof.
  intros Hl Ht. unfold ceil_div.
  pose proof (Z.mul_div_le (- total) limit ltac:(lia)).
  pose proof (Z.mul_succ_div_gt (- total) limit ltac:(lia)).
  pose proof (Z.div_le_upper_bound (- total) limit 0 ltac:(lia) ltac:(lia)).
  lia.
Qed.

Lemma sorted_slice skip limit l :
  StronglySorted newer_first l ->
  StronglySorted newer_first (take limit (drop skip l)).
Proof.
  intros H. rewrite <- (take_drop skip l) in H.
  apply StronglySorted_app_1_r in H.
  rewrite <- (take_drop limit (drop skip l)) in H.
  by apply StronglySorted_app_1_l in H.
Qed.

(** A limit beyond the range of the doubles is [Infinity]: the skip of
    page 1 is then [NaN], which the server reads as zero, every reading is
    answered, and the page count is 0. *)
Example limit_beyond_the_doubles :
  let huge := Some (string_of_list_ascii (replicate 310 "9"%char)) in
  parseInt huge = PInf /\
  js_mul (js_sub (num 1) (num 1)) PInf = NaN /\
  responses (events (get_api_data (Some "1") huge) three_readings) =
    [(200, JsonPage (sort_desc (db three_readings)) (num 1) PInf (num 3) (num 0))].
Proof. repeat split; vm_compute; reflexivity. Qed.

(** Two readings stored within the same millisecond: when MongoDB lists
    them one way in the query for page 1 and the other way in the query for
    page 2, both pages of limit 1 hold the same reading. *)
Example pages_of_tied_readings :
  map ts (db tied_readings) = [Some 1000; Some 1000] /\
  map _id (page_data (events (get_api_data (Some "1") (Some "1")) tied_readings)) = [0%nat] /\
  map _id (page_data (events (get_api_data (Some "2") (Some "1")) tied_readings)) = [0%nat].
Proof. repeat split; vm_compute; reflexivity. Qed.

(** C6, as the specification states it, fails on the code: a limit of 0 is a
    number, yet it is replaced by 50 and the page holds three readings, more
    than the limit asked for; and the page -1 is answered with the error 500
    and no readings. *)
Lemma zero_limit_and_negative_page :
  parseInt (Some "0") = num 0 /\
  length (page_data (events (get_api_data (Some "1") (Some "0")) three_readings)) = 3%nat /\
  ~ (3 <= 0)%nat /\
  parseInt (Some "-1") = num (-1) /\
  responses (events (get_api_data (Some "-1") (Some "2")) three_readings) =
    [(500, JsonError "Failed to fetch sensor data")].
Proof. repeat split; try (vm_compute; reflexivity). lia. Qed.

(** C6, amended: with the store reachable, a page or limit that is not
    given, is not a number, or is zero counts as page 1 and limit 50.  For a
    page [P >= 1] and a limit [L >= 1] within the safe integers
    ([P * L <= 2^53], fewer than 2^53 readings stored) the paginated query
    answers with the readings of a listing of the store sorted newest first,
    after skipping the first [(P - 1) * L] of them and keeping at most [L],
    and it reports the page, the limit, the number of readings stored and
    the page count [ceil(total / L)].  When no two stored readings have the
    same timestamp, the pages 1 to [ceil(total / L)], one after the other,
    are the whole store sorted newest first.  The query changes nothing in
    the store. *)
Theorem paginated_query (q_page q_limit : option string) (w : World) :
  connected w = true ->
  let page := or_default (parseInt q_page) (num 1) in
  let limit := or_default (parseInt q_limit) (num 50) in
  let total := Z.of_nat (length (db w)) in
  parseInt None = NaN /\
  (parseInt q_page = NaN \/ parseInt q_page = num 0 -> page = num 1) /\
  (parseInt q_limit = NaN \/ parseInt q_limit = num 0 -> limit = num 50) /\
  (forall P L,
     page = num P -> limit = num L ->
     1 <= P -> 1 <= L -> P * L <= 2 ^ 53 -> total < 2 ^ 53 ->
     exists sorted,
       sorted ≡ₚ db w /\
       StronglySorted newer_first sorted /\
       let items := take (Z.to_nat L) (drop (Z.to_nat ((P - 1) * L)) sorted) in
       responses (events (get_api_data q_page q_limit) w) =
         [(200, JsonPage items (num P) (num L) (num total) (num (ceil_div total L)))] /\
       (length items <= Z.to_nat L)%nat /\
       StronglySorted newer_first items /\
       items ⊆ db w) /\
  (forall L,
     limit = num L -> 1 <= L -> total + L <= 2 ^ 53 ->
     (forall x y, x ∈ db w -> y ∈ db w -> ts x = ts y -> x = y) ->
     forall qs : list (option string),
     Forall2 (fun q P => parseInt q = num P) qs (seqZ 1 (ceil_div total L)) ->
     mjoin (map (fun q => page_data (events (get_api_data q q_limit) w)) qs) =
       sort_desc (db w)) /\
  db (run (get_api_data q_page q_limit) w) = db w.
Proof.
  intros Hc page limit total.
  split; [done|]. split; [|split; [|split; [|split]]].
  - intros [E | E]; subst page; by rewrite E.
  - intros [E | E]; subst limit; by rewrite E.
  - intros P L HP HL Hp Hl Hsafe Ht.
    eexists. split; [apply sort_desc_by_perm|].
    split; [apply sort_desc_by_sorted|]. cbv zeta.
    rewrite (page_outcome q_page q_limit w P L Hc HP HL Hp Hl Hsafe Ht).
    fold page limit. rewrite HP, HL.
    split; [done|]. split; [|split].
    + rewrite length_take. lia.
    + apply sorted_slice, sort_desc_by_sorted.
    + intros d Hd. apply subseteq_take, subseteq_drop in Hd.
      by rewrite sort_desc_by_perm in Hd.
  - intros L HL Hl Hsafe Hinj qs Hqs.
    destruct (ceil_div_covers total L Hl ltac:(lia)) as (Hn & Hcov & Hlast).
    rewrite <- (slices_concat (Z.to_nat L) (Z.to_nat (ceil_div total L))
                  (sort_desc (db w)))
      by (rewrite sort_desc_length; nia).
    unfold seqZ in Hqs. apply Forall2_fmap_r in Hqs.
    assert (Forall (fun i => (i < Z.to_nat (ceil_div total L))%nat)
              (seq 0 (Z.to_nat (ceil_div total L)))) as Hidx.
    { apply Forall_forall. intros i Hi. apply elem_of_seq in Hi. lia. }
    f_equal. revert Hqs Hidx. generalize (seq 0 (Z.to_nat (ceil_div total L))).
    intros idx Hqs Hidx. induction Hqs as [|q i qs idx Hq _ IH]; [done|].
    apply Forall_cons in Hidx as [Hi Hidx].
    cbn [map]. f_equal; [|by apply IH].
    assert (or_default (parseInt q) (num 1) = num (Z.of_nat i + 1)) as Hpage.
    { rewrite Hq. unfold or_default, num. simpl.
      by destruct (Z.of_nat i + 1) eqn:E; [lia|..]. }
    rewrite (page_outcome q q_limit w (Z.of_nat i + 1) L Hc Hpage HL) by nia.
    unfold page_data. cbn. rewrite app_nil_r.
    rewrite (sort_desc_by_unique _ _ Hinj).
    do 2 f_equal. nia.
  - apply page_unchanged.
Qed.

Lemma paginated_query_witness :
  (exists sorted,
     sorted ≡ₚ db three_readings /\
     responses (events (get_api_data (Some "2") (Some "2")) three_readings) =
       [(200, JsonPage (take 2 (drop 2 sorted)) (num 2) (num 2) (num 3) (num 2))]) /\
  mjoin (map (fun q => page_data (events (get_api_data q (Some "2")) three_readings))
           [Some "1"; Some "2"]) =
    sort_desc (db three_readings).
Proof.
  assert (connected three_readings = true) as Hc by (vm_compute; reflexivity).
  destruct (paginated_query (Some "2") (Some "2") three_readings Hc)
    as (_ & _ & _ & Hpage & Hall & _).
  split.
  - destruct (Hpage 2 2 ltac:(vm_compute; reflexivity) ltac:(vm_compute; reflexivity)
                ltac:(lia) ltac:(lia) ltac:(lia) ltac:(vm_compute; reflexivity))
      as (sorted & Hperm & _ & Hres & _).
    exists sorted. split; [exact Hperm|exact Hres].
  - apply (Hall 2 ltac:(vm_compute; reflexivity) ltac:(lia)
             ltac:(vm_compute; discriminate)).
    + intros x y Hx Hy Hts.
      apply list_elem_of_lookup in Hx as [i Hx].
      apply list_elem_of_lookup in Hy as [j Hy].
      destruct i as [|[|[|i]]], j as [|[|[|j]]];
        vm_compute in Hx, Hy; try discriminate;
        injection Hx as <-; injection Hy as <-;
        first [reflexivity | vm_compute in Hts; discriminate].
    + match goal with
      | |- Forall2 _ _ ?l => replace l with [1; 2] by (vm_compute; reflexivity)
      end.
      repeat (constructor; [vm_compute; reflexivity|]). constructor.
Defined.

End ServerProperties.

(** * Properties of the viewer session *)

Section SessionProperties.
Import Client Session.
#[local] Open Scope js_scope.

Lemma run_snoc es e st : run (es ++ [e]) st = handle e (run es st).
Proof. unfold run. by rewrite fold_left_app. Qed.

Lemma fetch_in_two_steps response st :
  fetch_end response (fetch_begin st) = fetchLatestData response st.
Proof. reflexivity. Qed.

Lemma last_accepted_snoc es e :
  last_accepted (es ++ [e]) =
  match reading_of e with
  | Some d => if accepted d then Some d else last_accepted es
  | None => last_accepted es
  end.
Proof.
  unfold last_accepted. rewrite omap_app. simpl.
  destruct (reading_of e) as [d|]; simpl; [|by rewrite app_nil_r].
  rewrite filter_app, filter_cons, filter_nil.
  destruct (decide (accepted d = true)) as [E|E].
  - by rewrite E, last_snoc.
  - rewrite app_nil_r. by destruct (accepted d).
Qed.

Lemma last_status_snoc es e :
  last_status (es ++ [e]) =
  match status_of e with
  | Some s => Some s
  | None => last_status es
  end.
Proof.
  unfold last_status. rewrite omap_app. simpl.
  destruct (status_of e); simpl; [by rewrite last_snoc | by rewrite app_nil_r].
Qed.

Lemma view_after_run es st :
  currentLocation (run es st) =
    match last_accepted es with
    | Some d => shown d
    | None => currentLocation st
    end /\
  lastUpdate (run es st) =
    match last_accepted es with
    | Some d => Some (Date_new d.["timestamp"])
    | None => lastUpdate st
    end.
Proof.
  induction es as [|e es IH] using rev_ind; [done|].
  destruct IH as (IHl & IHu).
  rewrite run_snoc, last_accepted_snoc.
  destruct e as [| |d| |[d|]]; simpl;
    unfold on_connect, on_disconnect, on_sensor_data, fetch_begin, fetch_end,
      updateLocationData;
    try destruct (accepted d); simpl; done.
Qed.

(** X1: after any run of session events, from any state, the view and the
    last-update time are those of the last reading (pushed or polled) that
    passed the guard, or the ones of the start when there was none; and the
    connection status is the one set by the last connect or disconnect, or
    the one of the start.  Neither depends on the events of the other
    kind. *)
Theorem session_state_after_run (es : list Event) (st : App) :
  let st' := run es st in
  currentLocation st' =
    match last_accepted es with
    | Some d => shown d
    | None => currentLocation st
    end /\
  lastUpdate st' =
    match last_accepted es with
    | Some d => Some (Date_new d.["timestamp"])
    | None => lastUpdate st
    end /\
  connectionStatus st' = default (connectionStatus st) (last_status es).
Proof.
  cbv zeta. destruct (view_after_run es st) as [Hl Hu].
  split; [exact Hl|]. split; [exact Hu|].
  induction es as [|e es IH] using rev_ind; [done|].
  rewrite run_snoc, last_status_snoc.
  assert (forall d st0, connectionStatus (updateLocationData d st0) =
                        connectionStatus st0) as Hupd.
  { intros d st0. unfold updateLocationData. by destruct (accepted d). }
  destruct (view_after_run es st) as [Hl' Hu'].
  specialize (IH Hl' Hu').
  destruct e as [| |d| |[d|]]; simpl; try done;
    unfold on_sensor_data; by rewrite Hupd.
Qed.



(** X3: a poll that is answered, but with something the guard refuses, ends
    like a success: the error is cleared and the map is shown without
    message, while the view and the last-update time stay what they were. *)
Theorem refused_answer_looks_like_success (data : JsVal) (st : App) :
  accepted data = false ->
  let st' := fetch_end (Some data) (fetch_begin st) in
  error st' = None /\
  HomePage st' = Map false /\
  currentLocation st' = currentLocation st /\
  lastUpdate st' = lastUpdate st.
Proof.
  intros H. unfold fetch_end, fetch_begin, HomePage, updateLocationData.
  by rewrite H.
Qed.

Lemma refused_answer_looks_like_success_witness :
  let st := run [PollBegin; PollEnd None] initial in
  let st' := fetch_end (Some (JStr "<html>Bad Gateway</html>")) (fetch_begin st) in
  error st' = None /\
  HomePage st' = Map false /\
  currentLocation st' = currentLocation st /\
  lastUpdate st' = lastUpdate st.
Proof.
  apply (refused_answer_looks_like_success (JStr "<html>Bad Gateway</html>")).
  vm_compute. reflexivity.
Defined.

Lemma js_or_fit a b : fit b (a || b).
Proof. unfold fit, js_or. destruct (truthy a) eqn:E; auto. Qed.

Lemma shown_well_formed data : well_formed (shown data).
Proof. unfold well_formed, shown; simpl. repeat split; apply js_or_fit. Qed.

(** X4: whatever events reach a session that starts in the initial state,
    every field of the view is either truthy or the fallback of its [||]:
    the view never holds [undefined], [null], [NaN], [false] or an empty
    string. *)
Theorem view_stays_well_formed (es : list Event) :
  well_formed (currentLocation (run es initial)) /\
  Forall (fun v => v <> JUndefined /\ v <> JNull /\ v <> JNum NaN /\
                   v <> JBool false /\ v <> JStr "")
    (let l := currentLocation (run es initial) in
     [latitude l; longitude l; temperature l; humidity l; voc l; pm25 l;
      pm10 l; pm1 l; rainfall l; windSpeed l; windDirection l]).
Proof.
  assert (well_formed (currentLocation (run es initial))) as Hwf.
  { destruct (view_after_run es initial) as (-> & _).
    destruct (last_accepted es); [apply shown_well_formed|].
    unfold well_formed, fit. simpl. repeat split; by right. }
  split; [exact Hwf|].
  assert (forall b v, fit b v ->
            b <> JUndefined /\ b <> JNull /\ b <> JNum NaN /\
            b <> JBool false /\ b <> JStr "" ->
            v <> JUndefined /\ v <> JNull /\ v <> JNum NaN /\
            v <> JBool false /\ v <> JStr "") as Hfit.
  { intros b v [Ht | ->] Hb; [|done]. repeat split; intros ->; done. }
  destruct Hwf as (?&?&?&?&?&?&?&?&?&?&?).
  cbv zeta.
  repeat (apply List.Forall_cons;
          [eapply Hfit; [eassumption | by repeat split] |]).
  apply List.Forall_nil.
Qed.

End SessionProperties.

(** * Properties of the wire: from the store to the screen *)

Section WireProperties.
Import Server Wire.
Variable iso : Z -> string.
Variable hex : ObjectId -> string.

Lemma stored_props d :
  let data := json_stored iso hex d in
  let r := fields d in
  prop data "temperature" = json_number (temperature r) /\
  prop data "humidity" = json_number (humidity r) /\
  prop data "vocIndex" = json_number (vocIndex r) /\
  prop data "pm25" = json_number (pm25 r) /\
  prop data "pm10" = json_number (pm10 r) /\
  prop data "pm1" = json_number (pm1 r) /\
  prop data "rainfall" = json_number (rainfall r) /\
  prop data "windSpeed" = json_number (windSpeed r) /\
  prop data "windDirection" = JStr (windDirection r) /\
  opt_prop (prop data "location") "latitude" =
    json_option json_number (location_latitude r) /\
  opt_prop (prop data "location") "longitude" =
    json_option json_number (location_longitude r) /\
  prop data "timestamp" = json_option (fun t => JStr (iso t)) (timestamp r).
Proof.
  destruct d as [id r]. cbv zeta. simpl fields.
  repeat split; vm_compute; reflexivity.
Qed.

Lemma shown_number n :
  shown_as (json_number n || JNum (num 0))%js n.
Proof.
  destruct n as [| | |q]; try done. unfold js_or. simpl.
  destruct (Qnum q =? 0) eqn:E; simpl; [|reflexivity].
  apply Z.eqb_eq in E. unfold Qeq. simpl. rewrite E. lia.
Qed.

Lemma shown_coordinate site o :
  (json_option json_number o || JNum site)%js =
  match o with
  | Some (Fin q) => if Qnum q =? 0 then JNum site else JNum (Fin q)
  | _ => JNum site
  end.
Proof.
  unfold js_or. destruct o as [[| | |q]|]; simpl; try done.
  by destruct (Qnum q =? 0).
Qed.

Lemma stored_accepted d : Client.accepted (json_stored iso hex d) = true.
Proof.
  destruct (stored_props d) as (Ht & _). cbv zeta in Ht.
  unfold Client.accepted. rewrite Ht. by destruct (temperature (fields d)).
Qed.

(** X5: the client accepts every document of the collection as the backend
    sends it.  Its timestamp becomes the last-update time.  Each of its
    temperature, humidity, VOC index, PM and rain values and wind speed is
    shown, on its own account, with its own value when it is finite (a zero
    as zero) and as 0 when it is not; its wind direction is shown as it is;
    and its coordinate is shown as it is unless it is zero, [null] or not
    finite, in which case the site coordinate is shown instead. *)
Theorem stored_reading_on_screen (d : StoredReading) (st : Client.App) :
  let data := json_stored iso hex d in
  let r := fields d in
  let st' := Client.updateLocationData data st in
  let l := Client.currentLocation st' in
  Client.accepted data = true /\
  Client.lastUpdate st' =
    Some (Date_new (json_option (fun t => JStr (iso t)) (timestamp r))) /\
  shown_as (Client.temperature l) (temperature r) /\
  shown_as (Client.humidity l) (humidity r) /\
  shown_as (Client.voc l) (vocIndex r) /\
  shown_as (Client.pm25 l) (pm25 r) /\
  shown_as (Client.pm10 l) (pm10 r) /\
  shown_as (Client.pm1 l) (pm1 r) /\
  shown_as (Client.rainfall l) (rainfall r) /\
  shown_as (Client.windSpeed l) (windSpeed r) /\
  (windDirection r <> "" -> Client.windDirection l = JStr (windDirection r)) /\
  (windDirection r = "" -> Client.windDirection l = JStr "Unknown") /\
  Client.latitude l =
    match location_latitude r with
    | Some (Fin q) => if Qnum q =? 0 then JNum Client.site_latitude else JNum (Fin q)
    | _ => JNum Client.site_latitude
    end /\
  Client.longitude l =
    match location_longitude r with
    | Some (Fin q) => if Qnum q =? 0 then JNum Client.site_longitude else JNum (Fin q)
    | _ => JNum Client.site_longitude
    end.
Proof.
  intros data r st' l.
  destruct (stored_props d)
    as (Ht & Hh & Hv & Hp25 & Hp10 & Hp1 & Hr & Hws & Hwd & Hlat & Hlon & Hts).
  fold data in Ht, Hh, Hv, Hp25, Hp10, Hp1, Hr, Hws, Hwd, Hlat, Hlon, Hts.
  fold r in Ht, Hh, Hv, Hp25, Hp10, Hp1, Hr, Hws, Hwd, Hlat, Hlon, Hts.
  pose proof (stored_accepted d) as Hacc. fold data in Hacc.
  subst l st'. rewrite (update_accepted _ _ Hacc).
  cbn [Client.currentLocation Client.lastUpdate].
  split; [done|]. split; [by rewrite Hts|].
  unfold Client.shown.
  cbn [Client.latitude Client.longitude Client.temperature Client.humidity
       Client.voc Client.pm25 Client.pm10 Client.pm1 Client.rainfall
       Client.windSpeed Client.windDirection].
  rewrite Ht, Hh, Hv, Hp25, Hp10, Hp1, Hr, Hws, Hwd, Hlat, Hlon.
  do 8 (split; [apply shown_number|]).
  split; [|split; [|split]].
  - intros Hne. unfold js_or. simpl.
    destruct (String.eqb (windDirection r) "") eqn:E; [|done].
    by apply String.eqb_eq in E.
  - by intros ->.
  - apply shown_coordinate.
  - apply shown_coordinate.
Qed.

Lemma latest_down w :
  connected w = false ->
  events get_api_latest w =
    [Logged "Error fetching latest data:";
     Responded 500 (JsonError "Failed to fetch sensor data")] /\
  db (run get_api_latest w) = db w.
Proof.
  intros Hc. split; [apply events_app|];
    unfold run, get_api_latest, try_catch, bind, findOne_sort, exec;
    rewrite Hc; simpl; by rewrite <- ?app_assoc.
Qed.

Lemma reading_timestamp r :
  prop (json_reading iso r) "timestamp" =
  json_option (fun t => JStr (iso t)) (timestamp r) /\
  Client.accepted (json_reading iso r) = true.
Proof.
  split; [vm_compute; reflexivity|].
  unfold Client.accepted.
  replace (prop (json_reading iso r) "temperature")
    with (json_number (temperature r)) by (vm_compute; reflexivity).
  by destruct (temperature r).
Qed.

(** X6: one poll of the client against the backend.  It always ends with
    the spinner gone.  While the store is unreachable the client keeps the
    view it had and sets its error.  While the store is reachable the error
    is cleared and the view is replaced: by the placeholder, stamped with
    the time of the request, if the store is empty, and otherwise by a
    stored reading whose timestamp no stored reading exceeds. *)
Theorem poll_against_backend (w : World) (st : Client.App) :
  let st' := poll iso hex w st in
  Client.isLoading st' = false /\
  (connected w = false ->
     Client.error st' =
       Some "Failed to fetch sensor data. Make sure the backend is running." /\
     Client.currentLocation st' = Client.currentLocation st /\
     Client.lastUpdate st' = Client.lastUpdate st) /\
  (connected w = true ->
     Client.error st' = None /\
     (db w = [] ->
        Client.currentLocation st' =
          Client.shown (json_reading iso (default_data (clock w))) /\
        Client.lastUpdate st' = Some (Date_new (JStr (iso (clock w))))) /\
     (db w <> [] ->
        exists d, d ∈ db w /\
          (forall d', d' ∈ db w -> key_le (ts d') (ts d) = true) /\
          Client.currentLocation st' = Client.shown (json_stored iso hex d) /\
          Client.lastUpdate st' =
            Some (Date_new (json_option (fun t => JStr (iso t)) (ts d))))).
Proof.
  intros st'. subst st'. unfold poll.
  destruct (connected w) eqn:Hc.
  - destruct (latest_outcome w Hc) as (Hev & _ & _).
    destruct (head (sort_desc (db w))) as [d|] eqn:Hhd.
    + assert (axios_get_latest iso hex (events get_api_latest w) =
              Some (json_stored iso hex d)) as -> by (by rewrite Hev).
      pose proof (stored_accepted d) as Hacc.
      unfold Session.fetch_end. rewrite (update_accepted _ _ Hacc).
      cbn [Client.setError Client.setIsLoading Client.isLoading Client.error
           Client.currentLocation Client.lastUpdate].
      split; [done|]. split; [done|]. intros _. split; [done|].
      destruct (sort_desc_head _ _ Hhd) as [Hin Hmax].
      split; [by intros E; rewrite E in Hin; apply elem_of_nil in Hin|].
      intros _. exists d. split; [done|]. split; [done|]. split; [done|].
      destruct (stored_props d) as (_&_&_&_&_&_&_&_&_&_&_& Hts').
      cbv zeta in Hts'. by rewrite Hts'.
    + assert (axios_get_latest iso hex (events get_api_latest w) =
              Some (json_reading iso (default_data (clock w)))) as ->
        by (by rewrite Hev).
      destruct (reading_timestamp (default_data (clock w))) as [Hts Hacc].
      unfold Session.fetch_end. rewrite (update_accepted _ _ Hacc).
      cbn [Client.setError Client.setIsLoading Client.isLoading Client.error
           Client.currentLocation Client.lastUpdate].
      split; [done|]. split; [done|]. intros _. split; [done|].
      split; [by rewrite Hts|].
      intros Hne. exfalso. apply Hne, sort_desc_nil_inv. by apply head_None.
  - destruct (latest_down w Hc) as (Hev & _).
    assert (axios_get_latest iso hex (events get_api_latest w) = None) as ->
      by (by rewrite Hev).
    by repeat split.
Qed.

Lemma emissions_success doc d ss :
  emissions (ingest_success doc d ss) =
  map (fun s => (s, "sensor-data", doc)) ss.
Proof.
  unfold emissions, ingest_success. simpl.
  induction ss as [|s ss IH]; simpl; [done | by f_equal].
Qed.

(** X7: an ingest that stores a reading pushes that reading, as the
    collection holds it, to every client connected at that moment, once
    each and in the order of their connection; and each client accepts
    it. *)
Theorem viewers_are_pushed_the_stored_reading
    (body : Payload) (w : World) (d : StoredReading) :
  Inserted d ∈ events (post_api_arduino body) w ->
  pushes iso hex body w = map (fun s => (s, json_stored iso hex d)) (sockets w) /\
  Client.accepted (json_stored iso hex d) = true.
Proof.
  intros Hin. split; [|apply stored_accepted].
  unfold pushes.
  destruct (ingest_outcome body w) as [(d' & Hd & _ & _ & Hevs) | (_ & _ & Hevs)];
    rewrite Hevs in *; clear Hevs.
  - assert (d' = d) as ->.
    { unfold ingest_success in Hin.
      apply elem_of_cons in Hin as [[= ->] | Hin]; [done|].
      apply elem_of_app in Hin as [Hin | Hin].
      - by apply list_elem_of_fmap in Hin as (? & ? & _).
      - apply elem_of_cons in Hin as [? | Hin]; [done|].
        by apply list_elem_of_singleton in Hin. }
    rewrite emissions_success. clear Hin.
    induction (sockets w) as [|s ss IH]; [done|].
    simpl. rewrite Hd. simpl. by f_equal.
  - exfalso. unfold ingest_failure in Hin.
    apply elem_of_cons in Hin as [? | Hin]; [done|].
    by apply list_elem_of_singleton in Hin.
Qed.

End WireProperties.

Lemma viewers_are_pushed_the_stored_reading_witness :
  let iso := fun _ : Z => "1970-01-01T00:00:01.000Z" in
  let hex := fun _ : Server.ObjectId => "000000000000000000000000" in
  Wire.pushes iso hex Server.full_body Server.empty_world =
    map (fun s => (s, Wire.json_stored iso hex Server.full_body_stored))
      (Server.sockets Server.empty_world) /\
  Client.accepted (Wire.json_stored iso hex Server.full_body_stored) = true.
Proof.
  apply (viewers_are_pushed_the_stored_reading
           (fun _ => "1970-01-01T00:00:01.000Z")
           (fun _ => "000000000000000000000000")
           Server.full_body Server.empty_world Server.full_body_stored).
  vm_compute. left.
Defined.

(** * Properties of the backend as a whole *)

Section ServiceProperties.
Import Server Service.

Lemma insertions_emitted doc ss :
  insertions (map (fun s => Emitted s "sensor-data" doc) ss) = [].
Proof. induction ss as [|s ss IH]; [done|]. exact IH. Qed.

Lemma responses_emitted doc ss :
  responses (map (fun s => Emitted s "sensor-data" doc) ss) = [].
Proof. induction ss as [|s ss IH]; [done|]. exact IH. Qed.

Lemma insertions_app t1 t2 : insertions (t1 ++ t2) = insertions t1 ++ insertions t2.
Proof. apply omap_app. Qed.

Lemma responses_app t1 t2 : responses (t1 ++ t2) = responses t1 ++ responses t2.
Proof. apply omap_app. Qed.

Ltac close_step :=
  cbn; rewrite ?app_nil_r; repeat split; try done; try lia.

(** What one request does to the world, whatever the request and the
    world. *)
Lemma serve_step r w :
  let w' := run (serve r) w in
  exists evs,
    trace w' = trace w ++ evs /\
    db w' = db w ++ insertions evs /\
    (length (insertions evs) <= if is_post r then 1 else 0)%nat /\
    length (responses evs) = (if is_http r then 1 else 0)%nat /\
    connected w' = connected w /\
    clock w' = clock w /\
    (is_http r = true -> is_post r = false ->
       sockets w' = sockets w /\ next_id w' = next_id w /\
       insertions evs = [] /\ emissions evs = []) /\
    (is_post r = true -> sockets w' = sockets w).
Proof.
  destruct r as [s|s| |p l|sd ed|body]; cbv zeta;
    unfold run, serve, post_api_arduino, get_api_latest, get_api_data,
      get_api_data_range, try_catch, new_SensorData, save, bind, new_ObjectId,
      Date_now, ret, findOne_sort, find_sort_skip_limit, find_range_sort,
      countDocuments, exec, io_emit, get, record, insert, console_log,
      console_error, res_json, res_status_json, throw, on_connection,
      on_disconnect, bind; cbn [fst snd].
  - eexists. split; [reflexivity|]. close_step.
  - eexists. split; [reflexivity|]. close_step.
  - destruct (connected w) eqn:Hc; cbn.
    + destruct (head (sort_desc (db w))); cbn;
        (eexists; split; [reflexivity|]); rewrite ?Hc; close_step.
    + eexists. split; [by rewrite <- app_assoc|]. rewrite ?Hc. close_step.
  - destruct (connected w) eqn:Hc; cbn.
    + destruct (safe_long _ <? 0); cbn; rewrite ?Hc; cbn.
      * eexists. split; [by rewrite <- app_assoc|]. rewrite ?Hc. close_step.
      * eexists. split; [reflexivity|]. rewrite ?Hc. close_step.
    + eexists. split; [by rewrite <- app_assoc|]. rewrite ?Hc. close_step.
  - destruct (falsy_param sd || falsy_param ed); cbn.
    + eexists. split; [reflexivity|]. close_step.
    + destruct (new_Date sd), (new_Date ed); cbn;
        try destruct (connected w) eqn:Hc; cbn;
        (eexists; split; [by rewrite <- ?app_assoc|]); rewrite ?Hc; close_step.
  - destruct (stored _) as [d|] eqn:Hd; cbn.
    + destruct (connected w) eqn:Hc; cbn.
      * eexists. split; [by rewrite <- !app_assoc|].
        rewrite !insertions_app, !responses_app, insertions_emitted,
          responses_emitted, ?Hc. close_step.
      * eexists. split; [by rewrite <- !app_assoc|]. rewrite ?Hc. close_step.
    + eexists. split; [by rewrite <- !app_assoc|]. close_step.
Qed.

Lemma serve_all_snoc rs r w :
  serve_all (rs ++ [r]) w = run (serve r) (serve_all rs w).
Proof. unfold serve_all. by rewrite fold_left_app. Qed.

(** X8: over any run of requests, in any order and from any world, the
    backend only ever appends to the collection: the readings it held stay,
    in place and unchanged, at most one is added per ingest request, what is
    added is exactly what the trace records as inserted, and every HTTP
    request is answered exactly once. *)
Theorem backend_is_append_only (rs : list Request) (w : World) :
  let w' := serve_all rs w in
  exists evs,
    trace w' = trace w ++ evs /\
    db w' = db w ++ insertions evs /\
    (length (insertions evs) <= length (filter (fun r => is_post r = true) rs))%nat /\
    length (responses evs) = length (filter (fun r => is_http r = true) rs) /\
    connected w' = connected w.
Proof.
  cbv zeta. induction rs as [|r rs IH] using rev_ind.
  - exists []. simpl. by rewrite !app_nil_r.
  - destruct IH as (evs & Ht & Hdb & Hins & Hres & Hc).
    rewrite serve_all_snoc.
    destruct (serve_step r (serve_all rs w))
      as (evs' & Ht' & Hdb' & Hins' & Hres' & Hc' & _).
    exists (evs ++ evs').
    rewrite Ht', Hdb', Hc', Ht, Hdb, Hc, insertions_app, responses_app,
      !filter_app, !length_app, !filter_cons, !filter_nil, <- !app_assoc.
    repeat split; [|rewrite Hres, Hres'; by destruct (is_http r)].
    destruct (is_post r); simpl in *; lia.
Qed.

(** X9: each of the four data handlers sends exactly one answer, whatever
    the request and whatever the state of the store. *)
Theorem every_handler_answers_once (w : World) :
  length (responses (events get_api_latest w)) = 1%nat /\
  (forall page limit,
     length (responses (events (get_api_data page limit) w)) = 1%nat) /\
  (forall startDate endDate,
     length (responses (events (get_api_data_range startDate endDate) w)) = 1%nat) /\
  (forall body,
     length (responses (events (post_api_arduino body) w)) = 1%nat).
Proof.
  assert (forall r, is_http r = true ->
            length (responses (events (serve r) w)) = 1%nat) as H.
  { intros r Hr. destruct (serve_step r w) as (evs & Ht & _ & _ & Hres & _).
    rewrite (events_app _ _ _ Ht), Hres. by rewrite Hr. }
  split; [exact (H GetLatest eq_refl)|].
  split; [intros p l; exact (H (GetData p l) eq_refl)|].
  split; [intros sd ed; exact (H (GetRange sd ed) eq_refl)|].
  intros body. exact (H (PostArduino body) eq_refl).
Qed.

(** X10: the three query handlers change nothing but the trace: whatever
    the parameters, and whether they succeed or fail, the collection, the
    connected clients, the clock and the next identity are what they were,
    nothing is inserted and nothing is emitted. *)
Theorem queries_change_nothing (w : World) :
  let unchanged (h : M unit) :=
    db (run h w) = db w /\
    sockets (run h w) = sockets w /\
    next_id (run h w) = next_id w /\
    clock (run h w) = clock w /\
    connected (run h w) = connected w /\
    insertions (events h w) = [] /\
    emissions (events h w) = [] in
  unchanged get_api_latest /\
  (forall page limit, unchanged (get_api_data page limit)) /\
  (forall startDate endDate, unchanged (get_api_data_range startDate endDate)).
Proof.
  assert (forall r, is_http r = true -> is_post r = false ->
            db (run (serve r) w) = db w /\
            sockets (run (serve r) w) = sockets w /\
            next_id (run (serve r) w) = next_id w /\
            clock (run (serve r) w) = clock w /\
            connected (run (serve r) w) = connected w /\
            insertions (events (serve r) w) = [] /\
            emissions (events (serve r) w) = []) as H.
  { intros r Hh Hp.
    destruct (serve_step r w) as (evs & Ht & Hdb & _ & _ & Hc & Hk & Hq & _).
    destruct (Hq Hh Hp) as (Hs & Hn & Hi & He).
    rewrite (events_app _ _ _ Ht), Hdb, Hi, app_nil_r. by repeat split. }
  cbv zeta. split; [exact (H GetLatest eq_refl eq_refl)|].
  split; [intros p l; exact (H (GetData p l) eq_refl eq_refl)|].
  intros sd ed. exact (H (GetRange sd ed) eq_refl eq_refl).
Qed.

Lemma inserted_inv body w d :
  Inserted d ∈ events (post_api_arduino body) w ->
  let doc := {| doc_id := next_id w; paths := apply_defaults (clock w) body |} in
  stored doc = Some d /\ connected w = true /\
  db (run (post_api_arduino body) w) = db w ++ [d] /\
  events (post_api_arduino body) w = ingest_success doc d (sockets w).
Proof.
  intros Hin doc.
  destruct (ingest_outcome body w) as [(d' & Hd & Hc & Hdb & Hevs) | (_ & _ & Hevs)];
    rewrite Hevs in Hin.
  - assert (d' = d) as ->; [|done].
    unfold ingest_success in Hin.
    apply elem_of_cons in Hin as [[= ->] | Hin]; [done|].
    apply elem_of_app in Hin as [Hin | Hin].
    + by apply list_elem_of_fmap in Hin as (? & ? & _).
    + apply elem_of_cons in Hin as [? | Hin]; [done|].
      by apply list_elem_of_singleton in Hin.
  - exfalso. unfold ingest_failure in Hin.
    apply elem_of_cons in Hin as [? | Hin]; [done|].
    by apply list_elem_of_singleton in Hin.
Qed.

(** X11: right after an ingest that stored a reading, the latest-reading
    query answers with a reading at least as recent as the one just stored;
    and with that very reading when its timestamp is later than every
    timestamp the store held. *)
Theorem latest_after_ingest (body : Payload) (w : World) (d : StoredReading) :
  Inserted d ∈ events (post_api_arduino body) w ->
  let w' := run (post_api_arduino body) w in
  exists d',
    responses (events get_api_latest w') = [(200, JsonReading d')] /\
    key_le (ts d) (ts d') = true /\
    ((forall x, x ∈ db w -> key_le (ts d) (ts x) = false) -> d' = d).
Proof.
  intros Hin w'. destruct (inserted_inv _ _ _ Hin) as (_ & Hc & Hdb & _).
  fold w' in Hdb.
  assert (connected w' = true) as Hc'.
  { destruct (serve_step (PostArduino body) w) as (_ & _ & _ & _ & _ & E & _).
    subst w'. simpl in E. by rewrite E. }
  destruct (latest_outcome w' Hc') as (Hev & _ & _). rewrite Hev.
  assert (d ∈ db w') as Hd
    by (rewrite Hdb; apply elem_of_app; right; by apply list_elem_of_singleton).
  destruct (head (sort_desc (db w'))) as [d'|] eqn:Hhd.
  - exists d'. destruct (sort_desc_head _ _ Hhd) as [Hin' Hmax].
    split; [done|]. split; [by apply Hmax|].
    intros Hnew. rewrite Hdb in Hin'.
    apply elem_of_app in Hin' as [Hold | Hlast].
    + specialize (Hmax d Hd). by rewrite (Hnew d' Hold) in Hmax.
    + by apply list_elem_of_singleton in Hlast.
  - exfalso. apply head_None, sort_desc_nil_inv in Hhd.
    rewrite Hhd in Hd. by apply elem_of_nil in Hd.
Qed.

Lemma latest_after_ingest_witness :
  exists d',
    responses (events get_api_latest (run (post_api_arduino full_body) empty_world)) =
      [(200, JsonReading d')] /\
    key_le (ts full_body_stored) (ts d') = true /\
    ((forall x, x ∈ db empty_world -> key_le (ts full_body_stored) (ts x) = false) ->
     d' = full_body_stored).
Proof.
  apply (latest_after_ingest full_body empty_world full_body_stored).
  vm_compute. left.
Defined.

Lemma data_down page limit w :
  connected w = false ->
  events (get_api_data page limit) w =
    [Logged "Error fetching data:";
     Responded 500 (JsonError "Failed to fetch sensor data")].
Proof.
  intros Hc. apply events_app.
  unfold run, get_api_data, try_catch, find_sort_skip_limit, exec, get, bind.
  cbv beta iota. rewrite Hc. simpl. by rewrite <- app_assoc.
Qed.

(** X12: while the store is unreachable, the three query endpoints and the
    ingest endpoint all answer with the status 500 and their error message,
    except that a range query without one of its bounds is still refused
    with 400 before the store is asked; nothing is stored or emitted; and
    the health endpoint still answers 200, reporting the store as
    disconnected. *)
Theorem behaviour_while_store_is_down (w : World) :
  connected w = false ->
  responses (events get_api_latest w) =
    [(500, JsonError "Failed to fetch sensor data")] /\
  (forall page limit,
     responses (events (get_api_data page limit) w) =
       [(500, JsonError "Failed to fetch sensor data")]) /\
  (forall startDate endDate,
     responses (events (get_api_data_range startDate endDate) w) =
       if falsy_param startDate || falsy_param endDate
       then [(400, JsonError "Start date and end date are required")]
       else [(500, JsonError "Failed to fetch sensor data")]) /\
  (forall body,
     responses (events (post_api_arduino body) w) =
       [(500, JsonError "Failed to save sensor data")] /\
     db (run (post_api_arduino body) w) = db w /\
     emissions (events (post_api_arduino body) w) = []) /\
  (forall process_uptime,
     get_api_health process_uptime w =
       (Ok (200, {| status := "OK"; health_timestamp := clock w;
                    uptime := process_uptime; mongodb := "Disconnected" |}), w)).
Proof.
  intros Hc. split; [|split; [|split; [|split]]].
  - by destruct (latest_down w Hc) as [-> _].
  - intros page limit. by rewrite (data_down _ _ _ Hc).
  - intros sd ed. destruct (falsy_param sd || falsy_param ed) eqn:Hf.
    + by destruct (range_missing _ _ w Hf) as [-> _].
    + destruct (range_given _ _ w Hf) as [-> _]. rewrite Hc.
      by destruct (new_Date sd), (new_Date ed).
  - intros body.
    destruct (ingest_outcome body w) as [(d & _ & Hc' & _) | (_ & Hdb & Hevs)].
    + by rewrite Hc in Hc'.
    + by rewrite Hevs, Hdb.
  - intros up. unfold get_api_health, bind, Date_now, get, ret. by rewrite Hc.
Qed.

Lemma behaviour_while_store_is_down_witness :
  let w := {| db := db one_reading; connected := false;
              sockets := sockets one_reading; clock := 5000;
              next_id := next_id one_reading; trace := [];
              tie_break := tie_break one_reading |} in
  responses (events get_api_latest w) =
    [(500, JsonError "Failed to fetch sensor data")] /\
  responses (events (get_api_data_range NotGiven (Instant 1)) w) =
    [(400, JsonError "Start date and end date are required")] /\
  responses (events (post_api_arduino full_body) w) =
    [(500, JsonError "Failed to save sensor data")].
Proof.
  cbv zeta.
  destruct (behaviour_while_store_is_down
              {| db := db one_reading; connected := false;
                 sockets := sockets one_reading; clock := 5000;
                 next_id := next_id one_reading; trace := [];
                 tie_break := tie_break one_reading |} eq_refl)
    as (Hl & _ & Hr & Hp & _).
  split; [exact Hl|]. split; [exact (Hr NotGiven (Instant 1))|].
  exact (proj1 (Hp full_body)).
Defined.




(** X14: with the store reachable and both bounds dates, a range whose start
    is after its end is answered with the status 200 and an empty list, not
    with an error; no reading without a timestamp is ever answered; and
    every reading answered for a range is answered for any range that
    contains it. *)
Theorem range_query_edges (s e : Z) (w : World) :
  connected w = true ->
  let answered s e d :=
    exists data,
      responses (events (get_api_data_range (Instant s) (Instant e)) w) =
        [(200, JsonList data)] /\ d ∈ data in
  (e < s ->
     responses (events (get_api_data_range (Instant s) (Instant e)) w) =
       [(200, JsonList [])]) /\
  (forall d, answered s e d -> ts d <> None) /\
  (forall s' e' d, s' <= s -> e <= e' -> answered s e d -> answered s' e' d).
Proof.
  intros Hc answered.
  assert (forall s e,
            responses (events (get_api_data_range (Instant s) (Instant e)) w) =
            [(200, JsonList (sort_desc (filter (fun d => in_range s e d = true) (db w))))])
    as Hev.
  { intros s0 e0. destruct (range_given (Instant s0) (Instant e0) w eq_refl) as [-> _].
    simpl. by rewrite Hc. }
  assert (forall s e d, answered s e d <->
            d ∈ db w /\ exists t, ts d = Some t /\ s <= t <= e) as Hans.
  { intros s0 e0 d. unfold answered. rewrite Hev. split.
    - intros (data & [= <-] & Hd).
      by rewrite sort_desc_elem, list_elem_of_filter, in_range_spec, (comm and) in Hd.
    - intros Hd. eexists. split; [reflexivity|].
      by rewrite sort_desc_elem, list_elem_of_filter, in_range_spec, (comm and). }
  split; [|split].
  - intros Hlt. rewrite Hev. do 3 f_equal.
    assert (filter (fun d => in_range s e d = true) (db w) = []) as ->; [|done].
    destruct (filter (fun d => in_range s e d = true) (db w)) as [|x xs] eqn:E;
      [done|].
    assert (x ∈ filter (fun d => in_range s e d = true) (db w)) as Hx
      by (rewrite E; apply elem_of_cons; by left).
    apply list_elem_of_filter in Hx as [Hx _].
    apply in_range_spec in Hx as (t & _ & ?). lia.
  - intros d Hd. apply Hans in Hd as (_ & t & -> & _). done.
  - intros s' e' d Hs He Hd. apply Hans. apply Hans in Hd as (Hin & t & Ht & ?).
    split; [done|]. exists t. split; [done|]. lia.
Qed.

Lemma range_query_edges_witness :
  responses (events (get_api_data_range (Instant 5000) (Instant 0)) three_readings) =
    [(200, JsonList [])].
Proof.
  assert (connected three_readings = true) as Hc by (vm_compute; reflexivity).
  apply (proj1 (range_query_edges 5000 0 three_readings Hc)). lia.
Defined.

Lemma inbox_success s doc d ss :
  inbox s (ingest_success doc d ss) =
  map (fun _ => doc) (filter (fun s' => s' = s) ss).
Proof.
  unfold ingest_success, inbox. simpl.
  induction ss as [|s' ss IH]; [done|].
  simpl. rewrite filter_cons. destruct (decide (s' = s)); simpl; by rewrite IH.
Qed.

Lemma inbox_ingest s body w :
  let doc := {| doc_id := next_id w; paths := apply_defaults (clock w) body |} in
  inbox s (events (post_api_arduino body) w) =
  match stored doc with
  | Some _ =>
      if connected w
      then map (fun _ => doc) (filter (fun s' => s' = s) (sockets w))
      else []
  | None => []
  end.
Proof.
  intros doc.
  destruct (ingest_outcome body w) as [(d & Hd & Hc & _ & Hevs) | (Hf & _ & Hevs)];
    fold doc in Hd || fold doc in Hf; rewrite Hevs.
  - by rewrite Hd, Hc, inbox_success.
  - destruct Hf as [-> | ->]; [done|]. by destruct (stored doc).
Qed.

(** X15: a client is delivered a reading only while it is connected.  An
    ingest delivers nothing to a client that has disconnected, nor to one
    that has not connected yet; and to a client that has just connected it
    delivers the stored document exactly once. *)
Theorem delivery_follows_connection (s : SocketId) (body : Payload) (w : World) :
  inbox s (events (post_api_arduino body) (run (on_disconnect s) w)) = [] /\
  (s ∉ sockets w -> inbox s (events (post_api_arduino body) w) = []) /\
  (s ∉ sockets w ->
   forall d, Inserted d ∈ events (post_api_arduino body) (run (on_connection s) w) ->
   exists doc, stored doc = Some d /\
     inbox s (events (post_api_arduino body) (run (on_connection s) w)) = [doc]).
Proof.
  assert (forall l : list SocketId, s ∉ l -> filter (fun s' => s' = s) l = []) as Hnone.
  { intros l Hl. induction l as [|x l IH]; [done|].
    rewrite filter_cons. apply not_elem_of_cons in Hl as [Hx Hl].
    rewrite decide_False by done. by apply IH. }
  split; [|split].
  - rewrite inbox_ingest. unfold run, on_disconnect. simpl.
    rewrite Hnone; [by repeat case_match|].
    intros Hin. by apply list_elem_of_filter in Hin as [? _].
  - intros Hs. rewrite inbox_ingest, (Hnone _ Hs). by repeat case_match.
  - intros Hs d Hin. destruct (inserted_inv _ _ _ Hin) as (Hd & Hc & _).
    eexists. split; [exact Hd|].
    rewrite inbox_ingest, Hd, Hc. unfold run, on_connection. simpl.
    rewrite filter_app, (Hnone _ Hs), filter_cons, filter_nil.
    by rewrite decide_True.
Qed.

Lemma compass_index (r : Q) :
  in_unit r ->
  exists s,
    index compass (Math_floor (js_mul (Fin r) (num 8))) = Some s /\
    s ∈ compass /\ s <> "".
Proof.
  intros (Hd & H0 & H1).
  destruct (floor_of_eighths r Hd H0 H1) as (i & -> & Hi).
  unfold index, num. rewrite Qfloor_Z.
  assert (Qeq_bool (inject_Z i) (inject_Z i) = true) as ->
    by (by apply Qeq_bool_iff).
  assert ((0 <=? i) = true) as -> by (apply Z.leb_le; lia).
  cbn [andb].
  assert (Z.to_nat i < 8)%nat as Hn by lia.
  destruct (Z.to_nat i) as [|[|[|[|[|[|[|[|n]]]]]]]]; try lia;
    (eexists; split; [reflexivity|]); (split; [|done]);
    unfold compass; rewrite !elem_of_cons; tauto.
Qed.

Lemma cast_number_value n : n <> NaN -> cast_number n = Value n.
Proof. by destruct n. Qed.

Lemma js_mul_not_NaN a b : js_mul (Fin a) (Fin b) <> NaN.
Proof. apply double_not_NaN. Qed.

Lemma js_add_not_NaN a y : y <> NaN -> js_add (Fin a) y <> NaN.
Proof. destruct y; try done. intros _. apply double_not_NaN. Qed.

Lemma Math_floor_not_NaN x : x <> NaN -> Math_floor x <> NaN.
Proof. by destruct x. Qed.

(** The floor is taken of the rounded product: for the double nearest to
    0.95 the product by 20 rounds to 19, and the sum [25.5 + 0.95 * 10] to
    35. *)
Example test_data_near_one :
  in_unit (r_pm1 draws_near_one) /\
  pm1 (testData draws_near_one) = Value (num 19) /\
  temperature (testData draws_near_one) = Value (num 35) /\
  windDirection (testData draws_near_one) = Value "NW".
Proof.
  repeat split; try (vm_compute; reflexivity). vm_compute. discriminate.
Qed.

(** X16: [POST /api/test-data] never fails validation: whatever doubles of
    the unit interval [Math.random] returns, the wind direction it picks is
    one of the eight compass labels and the document it builds passes the
    schema, with the numbers of [testData] as its readings.  With the store
    reachable the document is stored with the site coordinate and the time
    of the request, emitted to every connected client, and the answer is 200
    with the generated data; with the store unreachable the answer is 500
    and nothing is stored or emitted.  Either way the run registers the
    route [GET /api/test-data] once more. *)
Theorem test_data_always_validates (d : Draws) (w : World) :
  Forall in_unit (draws d) ->
  let out := post_api_test_data d w in
  let evs := drop (length (trace w)) (trace (snd out)) in
  exists dir r,
    dir ∈ compass /\
    windDirection (testData d) = Value dir /\
    validate (apply_defaults (clock w) (testData d)) = Some r /\
    numeric_paths (testData d) =
      Value <$> [temperature r; humidity r; vocIndex r; vocRaw r; pm1 r;
                 pm25 r; pm10 r; rainfall r; windSpeed r] /\
    windDirection r = dir /\
    location_latitude r = Some default_latitude /\
    location_longitude r = Some default_longitude /\
    timestamp r = Some (clock w) /\
    if connected w then
      fst out = Ok {| registered := [GET "/api/test-data"];
                      answer := (200, TestGenerated "Test data generated" (testData d)) |} /\
      db (snd out) = db w ++ [{| _id := next_id w; fields := r |}] /\
      map (fun e => fst (fst e)) (emissions evs) = sockets w
    else
      fst out = Ok {| registered := [GET "/api/test-data"];
                      answer := (500, TestError "Failed to generate test data") |} /\
      db (snd out) = db w /\
      emissions evs = [].
Proof.
  intros Hr out evs.
  assert (in_unit (r_windDirection d)) as Hw.
  { unfold draws in Hr. rewrite Forall_forall in Hr. apply Hr.
    do 9 (apply elem_of_cons; right). apply elem_of_cons. by left. }
  destruct (compass_index _ Hw) as (dir & Hidx & Hdir & Hne).
  assert (String.eqb dir "" = false) as Hne' by (by apply String.eqb_neq).
  set (t := js_add (dec 255 10) (js_mul (Fin (r_temperature d)) (num 10))).
  set (h := js_add (num 55) (js_mul (Fin (r_humidity d)) (num 20))).
  set (vi := js_add (num 100) (js_mul (Fin (r_vocIndex d)) (num 100))).
  set (vr := js_add (num 25000) (js_mul (Fin (r_vocRaw d)) (num 5000))).
  set (p1 := Math_floor (js_mul (Fin (r_pm1 d)) (num 20))).
  set (p25 := Math_floor (js_mul (Fin (r_pm25 d)) (num 35))).
  set (p10 := Math_floor (js_mul (Fin (r_pm10 d)) (num 50))).
  set (rf := js_mul (Fin (r_rainfall d)) (num 2)).
  set (ws := js_mul (Fin (r_windSpeed d)) (num 10)).
  assert (testData d =
          {| temperature := Value t; humidity := Value h; vocIndex := Value vi;
             vocRaw := Value vr; pm1 := Value p1; pm25 := Value p25;
             pm10 := Value p10; rainfall := Value rf; windSpeed := Value ws;
             windDirection := Value dir;
             location_latitude := Value default_latitude;
             location_longitude := Value default_longitude;
             timestamp := Absent |}) as Htd.
  { unfold testData. rewrite Hidx.
    fold t h vi vr p1 p25 p10 rf ws.
    rewrite !cast_number_value; [done|..];
      subst t h vi vr p1 p25 p10 rf ws;
      first [ apply js_add_not_NaN, js_mul_not_NaN
            | apply Math_floor_not_NaN, js_mul_not_NaN
            | apply js_mul_not_NaN ]. }
  rewrite Htd.
  eexists dir, _. split; [exact Hdir|]. split; [reflexivity|].
  assert (validate
            (apply_defaults (clock w)
               {| temperature := Value t; humidity := Value h; vocIndex := Value vi;
                  vocRaw := Value vr; pm1 := Value p1; pm25 := Value p25;
                  pm10 := Value p10; rainfall := Value rf; windSpeed := Value ws;
                  windDirection := Value dir;
                  location_latitude := Value default_latitude;
                  location_longitude := Value default_longitude;
                  timestamp := Absent |}) =
          Some {| temperature := t; humidity := h; vocIndex := vi; vocRaw := vr;
                  pm1 := p1; pm25 := p25; pm10 := p10; rainfall := rf;
                  windSpeed := ws; windDirection := dir;
                  location_latitude := Some default_latitude;
                  location_longitude := Some default_longitude;
                  timestamp := Some (clock w) |}) as Hv.
  { unfold validate, apply_defaults. cbn -[t h vi vr p1 p25 p10 rf ws].
    by rewrite Hne'. }
  split; [exact Hv|]. do 5 (split; [reflexivity|]).
  subst out evs.
  unfold post_api_test_data, try_catch, new_SensorData, save, bind,
    new_ObjectId, Date_now, ret, stored. rewrite Htd.
  cbn [fst snd doc_id paths clock].
  rewrite Hv. cbn [mbind option_bind].
  unfold bind, get, insert, io_emit, console_log, console_error, record, throw.
  cbn [fst snd connected].
  destruct (connected w) eqn:Hc; cbn -[t h vi vr p1 p25 p10 rf ws].
  - split; [done|]. split; [done|].
    rewrite <- !app_assoc, drop_app_length. cbn -[t h vi vr p1 p25 p10 rf ws].
    unfold emissions. rewrite omap_app. cbn -[t h vi vr p1 p25 p10 rf ws].
    rewrite app_nil_r.
    induction (sockets w) as [|s ss IH]; [done|].
    cbn -[t h vi vr p1 p25 p10 rf ws]. by f_equal.
  - split; [done|]. split; [done|]. by rewrite drop_app_length.
Qed.

Lemma test_data_always_validates_witness :
  fst (post_api_test_data half_draws empty_world) =
    Ok {| registered := [GET "/api/test-data"];
          answer := (200, TestGenerated "Test data generated" (testData half_draws)) |} /\
  windDirection (testData half_draws) = Value "S".
Proof.
  assert (Forall in_unit (draws half_draws)) as H.
  { unfold draws, half_draws, in_unit.
    repeat (apply List.Forall_cons;
            [split; [vm_compute; reflexivity|split; [discriminate | reflexivity]]|]).
    apply List.Forall_nil. }
  destruct (test_data_always_validates half_draws empty_world H)
    as (dir & r & _ & Hwd & _ & _ & _ & _ & _ & _ & Hout).
  split; [exact (proj1 Hout)|]. vm_compute. reflexivity.
Defined.

End ServiceProperties.
